(** * FVENS: numerical flux schemes and residual assembly for the 2D Euler equations

    Shallow embedding of [src/anumericalflux.hpp] (the Van Leer and Roe
    schemes of namespace [acfd]) and of the parts of the spatial
    discretisation declared in [src/aspatial.hpp].

    Arithmetic: the source computes in [double] ([acfd_real]).  The embedding
    reads every arithmetic operation over the real numbers [R]: [+ - * /] are
    the field operations, [sqrt] is the real square root, [fabs] is [Rabs] and
    [pow x 2] is [x * x].  Statements are therefore about the formulas the
    code evaluates, not about their rounding.  [R] totalises [/] and [sqrt]
    differently from IEEE arithmetic, so the values the schemes return are
    only stated for physically valid states (positive density and pressure),
    where all divisors and radicands are positive; the identities stated
    without that assumption hold by ring reasoning alone. *)

From stdpp Require Import base list.
From Stdlib Require Import Reals Lra Lia.

Open Scope R_scope.

(** ** Vectors of conserved variables *)

(** A column [amat::Matrix<acfd_real>] of [NVARS = 4] entries:
    density, x-momentum, y-momentum, total energy. *)
Record Vec4 : Type := mkVec4 { x0 : R; x1 : R; x2 : R; x3 : R }.

(** [u->get(i)] for [i] in [0..3]. *)
Definition get (u : Vec4) (i : nat) : R :=
  match i with
  | O => x0 u
  | S O => x1 u
  | S (S O) => x2 u
  | _ => x3 u
  end.

(** [Matrix::zeros()] on a 4-vector. *)
Definition zeros : Vec4 := mkVec4 0 0 0 0.

Definition vadd (a b : Vec4) : Vec4 :=
  mkVec4 (x0 a + x0 b) (x1 a + x1 b) (x2 a + x2 b) (x3 a + x3 b).

Definition vsub (a b : Vec4) : Vec4 :=
  mkVec4 (x0 a - x0 b) (x1 a - x1 b) (x2 a - x2 b) (x3 a - x3 b).

Definition vopp (a : Vec4) : Vec4 :=
  mkVec4 (- x0 a) (- x1 a) (- x2 a) (- x3 a).

Definition vscale (k : R) (a : Vec4) : Vec4 :=
  mkVec4 (k * x0 a) (k * x1 a) (k * x2 a) (k * x3 a).

(** The face normal [const acfd_real* n]: [n[0]] and [n[1]]. *)
Definition Normal : Type := (R * R)%type.

Definition nopp (n : Normal) : Normal := (- fst n, - snd n).

Definition unit_normal (n : Normal) : Prop := fst n * fst n + snd n * snd n = 1.

(** ** Derived quantities of one state *)

(** Pressure as [VanLeerFlux::get_flux] computes it (lines 81-82). *)
Definition pressure (g : R) (u : Vec4) : R :=
  (g - 1) * (get u 3 - 0.5 * (pow (get u 1) 2 + pow (get u 2) 2) / get u 0).

(** Speed of sound (lines 84-85). *)
Definition sound_speed (g : R) (u : Vec4) : R :=
  sqrt (g * pressure g u / get u 0).

(** Normal velocity (lines 87-88). *)
Definition normal_velocity (u : Vec4) (n : Normal) : R :=
  (get u 1 * fst n + get u 2 * snd n) / get u 0.

(** Normal Mach number (lines 91-92). *)
Definition normal_mach (g : R) (u : Vec4) (n : Normal) : R :=
  normal_velocity u n / sound_speed g u.

(** The data-model invariant of a conserved state: positive density and
    positive derived pressure. *)
Definition valid_state (g : R) (u : Vec4) : Prop :=
  0 < get u 0 /\ 0 < pressure g u.

(** The physical Euler flux of a state projected on a normal, the
    "one-sided physical flux" (the supersonic branches at lines 98-101 and
    115-118). *)
Definition euler_flux (g : R) (u : Vec4) (n : Normal) : Vec4 :=
  let p := pressure g u in
  let vn := normal_velocity u n in
  mkVec4 (get u 0 * vn)
         (vn * get u 1 + p * fst n)
         (vn * get u 2 + p * snd n)
         (vn * (get u 3 + p)).

(** ** Van Leer flux-vector splitting *)

Module VanLeerFlux.

(** The left (forward) split flux [fiplus], lines 95-110. *)
Definition fiplus (g : R) (ul : Vec4) (n : Normal) : Vec4 :=
  let nx := fst n in
  let ny := snd n in
  let pi := (g - 1) * (get ul 3 - 0.5 * (pow (get ul 1) 2 + pow (get ul 2) 2) / get ul 0) in
  let ci := sqrt (g * pi / get ul 0) in
  let vni := (get ul 1 * nx + get ul 2 * ny) / get ul 0 in
  let Mni := vni / ci in
  if Rlt_dec Mni (-1.0) then zeros
  else if Rgt_dec Mni 1.0 then
    mkVec4 (get ul 0 * vni)
           (vni * get ul 1 + pi * nx)
           (vni * get ul 2 + pi * ny)
           (vni * (get ul 3 + pi))
  else
    let vmags := pow (get ul 1 / get ul 0) 2 + pow (get ul 2 / get ul 0) 2 in
    let f0 := get ul 0 * ci * pow (Mni + 1) 2 / 4.0 in
    mkVec4 f0
           (f0 * (get ul 1 / get ul 0 + nx * (2.0 * ci - vni) / g))
           (f0 * (get ul 2 / get ul 0 + ny * (2.0 * ci - vni) / g))
           (f0 * ((vmags - vni * vni) / 2.0
                  + pow ((g - 1) * vni + 2 * ci) 2 / (2 * (g * g - 1)))).

(** The right (backward) split flux [fjminus], lines 112-127. *)
Definition fjminus (g : R) (ur : Vec4) (n : Normal) : Vec4 :=
  let nx := fst n in
  let ny := snd n in
  let pj := (g - 1) * (get ur 3 - 0.5 * (pow (get ur 1) 2 + pow (get ur 2) 2) / get ur 0) in
  let cj := sqrt (g * pj / get ur 0) in
  let vnj := (get ur 1 * nx + get ur 2 * ny) / get ur 0 in
  let Mnj := vnj / cj in
  if Rgt_dec Mnj 1.0 then zeros
  else if Rlt_dec Mnj (-1.0) then
    mkVec4 (get ur 0 * vnj)
           (vnj * get ur 1 + pj * nx)
           (vnj * get ur 2 + pj * ny)
           (vnj * (get ur 3 + pj))
  else
    let vmags := pow (get ur 1 / get ur 0) 2 + pow (get ur 2 / get ur 0) 2 in
    let f0 := - get ur 0 * cj * pow (Mnj - 1) 2 / 4.0 in
    mkVec4 f0
           (f0 * (get ur 1 / get ur 0 + nx * (-2.0 * cj - vnj) / g))
           (f0 * (get ur 2 / get ur 0 + ny * (-2.0 * cj - vnj) / g))
           (f0 * ((vmags - vnj * vnj) / 2.0
                  + pow ((g - 1) * vnj - 2 * cj) 2 / (2 * (g * g - 1)))).

(** [VanLeerFlux::get_flux], lines 73-132, with [nvars = NVARS = 4]: the
    returned flux is the entrywise sum of the two split fluxes. *)
Definition get_flux (g : R) (ul ur : Vec4) (n : Normal) : Vec4 :=
  let fi := fiplus g ul n in
  let fj := fjminus g ur n in
  mkVec4 (get fi 0 + get fj 0) (get fi 1 + get fj 1)
         (get fi 2 + get fj 2) (get fi 3 + get fj 3).

End VanLeerFlux.

(** ** Roe flux-difference splitting with the Harten-Hyman entropy fix *)

Module RoeFlux.

(** The local variables of [RoeFlux::get_flux] that the statements below
    refer to, as they stand when the final loop starts. *)
Record Locals : Type := mkLocals {
  vni : R; vnj : R; ci : R; cj : R;      (* one-sided normal velocities, sound speeds *)
  vnij : R; cij : R;                      (* Roe averages *)
  eps0 : R; eps2 : R; eps3 : R;           (* the three values taken by [eps] *)
  l0 : R; l1 : R; l2 : R; l3 : R;         (* [l[0..3]] after the entropy fix *)
  r0 : Vec4; r1 : Vec4; r2 : Vec4; r3 : Vec4;  (* the columns of [r] *)
  dw : Vec4;
  fi : Vec4; fj : Vec4                    (* the arrays [fi] and [fj] *)
}.

(** Lines 145-225.  [fi_init] is the content of the automatic array
    [acfd_real fi[4]] at its declaration (line 221): the array has no
    initialiser, and lines 222-225 store into [fi[0]], [fi[1]] and (twice
    each) into [fj[2]] and [fj[3]], so [fi[2]] and [fi[3]] still hold their
    indeterminate initial content when line 234 reads them. *)
Definition locals (g : R) (fi_init : Vec4) (ul ur : Vec4) (n : Normal) : Locals :=
  let n0 := fst n in
  let n1 := snd n in
  let vxi := get ul 1 / get ul 0 in
  let vyi := get ul 2 / get ul 0 in
  let vxj := get ur 1 / get ur 0 in
  let vyj := get ur 2 / get ur 0 in
  let vni := vxi * n0 + vyi * n1 in
  let vnj := vxj * n0 + vyj * n1 in
  let vmag2i := vxi * vxi + vyi * vyi in
  let vmag2j := vxj * vxj + vyj * vyj in
  (* pressures *)
  let pi := (g - 1.0) * (get ul 3 - 0.5 * get ul 0 * vmag2i) in
  let pj := (g - 1.0) * (get ur 3 - 0.5 * get ur 0 * vmag2j) in
  (* speeds of sound *)
  let ci := sqrt (g * pi / get ul 0) in
  let cj := sqrt (g * pj / get ur 0) in
  (* enthalpies *)
  let Hi := (get ul 3 + pi) / get ul 0 in
  let Hj := (get ur 3 + pj) / get ur 0 in
  (* Roe averages *)
  let Rij := sqrt (get ur 0 / get ul 0) in
  let rhoij := Rij * get ul 0 in
  let vxij := (Rij * vxj + vxi) / (Rij + 1.0) in
  let vyij := (Rij * vyj + vyi) / (Rij + 1.0) in
  let Hij := (Rij * Hj + Hi) / (Rij + 1.0) in
  let vm2ij := vxij * vxij + vyij * vyij in
  let vnij := vxij * n0 + vyij * n1 in
  let cij := sqrt ((g - 1.0) * (Hij - vm2ij * 0.5)) in
  (* eigenvalues *)
  let l0 := vnij in
  let l1 := vnij in
  let l2 := vnij + cij in
  let l3 := vnij - cij in
  (* Harten-Hyman entropy fix *)
  let eps := 0 in
  let eps := if Rlt_dec eps (l0 - vni) then l0 - vni else eps in
  let eps := if Rlt_dec eps (vnj - l0) then vnj - l0 else eps in
  let eps_a := eps in
  let l0 := if Rlt_dec (Rabs l0) eps then eps else l0 in
  let l1 := if Rlt_dec (Rabs l1) eps then eps else l1 in
  let eps := 0 in
  let eps := if Rlt_dec eps (l2 - (vni + ci)) then l2 - (vni + ci) else eps in
  let eps := if Rlt_dec eps (vnj + cj - l2) then vnj + cj - l2 else eps in
  let eps_b := eps in
  let l2 := if Rlt_dec (Rabs l2) eps then eps else l2 in
  let eps := 0 in
  let eps := if Rlt_dec eps (l3 - (vni - ci)) then l3 - (vni - ci) else eps in
  let eps := if Rlt_dec eps (vnj - cj - l3) then vnj - cj - l3 else eps in
  let eps_c := eps in
  let l3 := if Rlt_dec (Rabs l3) eps then eps else l3 in
  (* eigenvectors, columns of r; columns 2 and 3 scaled by rhoij/(2.0*cij) *)
  let k := rhoij / (2.0 * cij) in
  let r0 := mkVec4 1.0 vxij vyij (vm2ij * 0.5) in
  let r1 := mkVec4 0 (cij * n1) (- cij * n0) (cij * (vxij * n1 - vyij * n0)) in
  let r2 := mkVec4 (1.0 * k) ((vxij + cij * n0) * k) ((vyij + cij * n1) * k)
                   ((Hij + cij * vnij) * k) in
  let r3 := mkVec4 (1.0 * k) ((vxij - cij * n0) * k) ((vyij - cij * n1) * k)
                   ((Hij - cij * vnij) * k) in
  (* R^(-1)(qR-qL) *)
  let dw := mkVec4 ((get ur 0 - get ul 0) - (pj - pi) / (cij * cij))
                   ((vxj - vxi) * n1 - (vyj - vyi) * n0)
                   (vnj - vni + (pj - pi) / (rhoij * cij))
                   (- (vnj - vni) + (pj - pi) / (rhoij * cij)) in
  (* one-sided flux vectors, as the source assigns them *)
  let fi := mkVec4 (get ul 0 * vni)
                   (get ul 0 * vni * vxi + pi * n0)
                   (get fi_init 2)
                   (get fi_init 3) in
  let fj := mkVec4 (get ur 0 * vnj)
                   (get ur 0 * vnj * vxj + pj * n0)
                   (get ur 0 * vnj * vyj + pj * n1)
                   (vnj * (get ur 3 + pj)) in
  mkLocals vni vnj ci cj vnij cij eps_a eps_b eps_c l0 l1 l2 l3 r0 r1 r2 r3 dw fi fj.

(** The dissipation term of one component: the inner loop of lines 231-233,
    [sum = 0; for j: sum += fabs(l[j])*dw.get(j)*r.get(ivar,j)]. *)
Definition dissipation (w : Locals) (ivar : nat) : R :=
  0 + Rabs (l0 w) * get (dw w) 0 * get (r0 w) ivar
    + Rabs (l1 w) * get (dw w) 1 * get (r1 w) ivar
    + Rabs (l2 w) * get (dw w) 2 * get (r2 w) ivar
    + Rabs (l3 w) * get (dw w) 3 * get (r3 w) ivar.

(** [RoeFlux::get_flux], lines 145-236. *)
Definition get_flux (g : R) (fi_init : Vec4) (ul ur : Vec4) (n : Normal) : Vec4 :=
  let w := locals g fi_init ul ur n in
  let out ivar := 0.5 * (get (fi w) ivar + get (fj w) ivar - dissipation w ivar) in
  mkVec4 (out 0%nat) (out 1%nat) (out 2%nat) (out 3%nat).

End RoeFlux.

(** ** Reference formulas the schemes are compared with *)

Module VanLeerSpec.

(** The subsonic blending polynomial of the left contribution as the
    design states it:
    f0 = rho c (Mn+1)^2/4,
    f1 = f0 (u + nx (2c - vn)/gamma), f2 = f0 (v + ny (2c - vn)/gamma),
    f3 = f0 ((|v|^2 - vn^2)/2 + ((gamma-1) vn + 2c)^2 / (2 (gamma^2-1))). *)
Definition blend_left (g : R) (u : Vec4) (n : Normal) : Vec4 :=
  let rho := get u 0 in
  let vx := get u 1 / rho in
  let vy := get u 2 / rho in
  let c := sound_speed g u in
  let vn := normal_velocity u n in
  let Mn := normal_mach g u n in
  let f0 := rho * c * (Mn + 1) ^ 2 / 4 in
  mkVec4 f0
         (f0 * (vx + fst n * (2 * c - vn) / g))
         (f0 * (vy + snd n * (2 * c - vn) / g))
         (f0 * ((vx ^ 2 + vy ^ 2 - vn ^ 2) / 2
                + ((g - 1) * vn + 2 * c) ^ 2 / (2 * (g ^ 2 - 1)))).

(** Its mirror image for the right contribution: the sign of f0 and of
    every occurrence of c is reversed. *)
Definition blend_right (g : R) (u : Vec4) (n : Normal) : Vec4 :=
  let rho := get u 0 in
  let vx := get u 1 / rho in
  let vy := get u 2 / rho in
  let c := sound_speed g u in
  let vn := normal_velocity u n in
  let Mn := normal_mach g u n in
  let f0 := - (rho * c * (Mn - 1) ^ 2 / 4) in
  mkVec4 f0
         (f0 * (vx + fst n * (- 2 * c - vn) / g))
         (f0 * (vy + snd n * (- 2 * c - vn) / g))
         (f0 * ((vx ^ 2 + vy ^ 2 - vn ^ 2) / 2
                + ((g - 1) * vn - 2 * c) ^ 2 / (2 * (g ^ 2 - 1)))).

End VanLeerSpec.

Module RoeSpec.

(** The Roe flux as the design states it: one half of the sum of the two
    one-sided physical fluxes minus the sum over the four characteristic
    fields of |lambda_k| dw_k r_k, with the entropy-fixed eigenvalues, the
    characteristic jumps and the right eigenvectors the scheme computes. *)
Definition flux (g : R) (ul ur : Vec4) (n : Normal) : Vec4 :=
  let w := RoeFlux.locals g zeros ul ur n in
  let out k := / 2 * (get (euler_flux g ul n) k + get (euler_flux g ur n) k
                      - RoeFlux.dissipation w k) in
  mkVec4 (out 0%nat) (out 1%nat) (out 2%nat) (out 3%nat).

End RoeSpec.

(** ** Planar rotations *)

(** A conserved state (or a flux vector) with its momentum components
    rotated by the angle [theta]; density and energy are scalars. *)
Definition rotate (theta : R) (u : Vec4) : Vec4 :=
  mkVec4 (get u 0)
         (cos theta * get u 1 - sin theta * get u 2)
         (sin theta * get u 1 + cos theta * get u 2)
         (get u 3).

Definition rotate_normal (theta : R) (n : Normal) : Normal :=
  (cos theta * fst n - sin theta * snd n, sin theta * fst n + cos theta * snd n).

(** ** Sample states *)

(** The adiabatic index of [anumericalflux.hpp], line 27. *)
Definition gamma_air : R := 1.4.

Definition e_y : Normal := (0, 1).

(** Unit density, pressure 5/7 (sound speed 1 for [gamma_air]) and
    velocity (0, v): total energy 25/14 + v^2/2. *)
Definition u_rest : Vec4 := mkVec4 1 0 0 (25 / 14).
Definition u_subsonic : Vec4 := mkVec4 1 0 (1 / 2) (107 / 56).
Definition u_sonic : Vec4 := mkVec4 1 0 1 (16 / 7).
Definition u_supersonic : Vec4 := mkVec4 1 0 2 (53 / 14).
Definition u_expand_left : Vec4 := mkVec4 1 0 (-2) (53 / 14).
Definition u_expand_right : Vec4 := mkVec4 1 0 3 (44 / 7).

(** Two states outside the data-model invariant: zero density, and
    negative pressure. *)
Definition u_vacuum : Vec4 := mkVec4 0 0 0 0.
Definition u_negative_pressure : Vec4 := mkVec4 1 0 0 (-1).

(** ** Failures *)

(** Modelled from the spec: the error taxonomy of the design (the headers
    under [src/] declare no error type). *)
Inductive Error : Type := DomainError | ConfigurationError.

(** The result of a fallible step. *)
Inductive Result (A : Type) : Type :=
  | Ok (a : A)
  | Err (e : Error).

Arguments Ok {A} a.
Arguments Err {A} e.

(** The outcome of one call of [InviscidFlux::get_flux]: the function
    returns [void] after storing the flux through its last argument, and
    neither [VanLeerFlux::get_flux] nor [RoeFlux::get_flux] contains a test
    of its inputs, a [throw] or an early return. *)
Definition VanLeerFlux_call (g : R) (ul ur : Vec4) (n : Normal) : Result Vec4 :=
  Ok (VanLeerFlux.get_flux g ul ur n).

Definition RoeFlux_call (g : R) (fi_init : Vec4) (ul ur : Vec4) (n : Normal)
  : Result Vec4 :=
  Ok (RoeFlux.get_flux g fi_init ul ur n).

(** ** Boundary states and residual assembly *)

Module EulerFV.

(** The part of the [EulerFV] object the boundary treatment reads
    ([aspatial.hpp], lines 48, 94 and 95). *)
Record Config : Type := mkConfig {
  uinf : Vec4;               (* free-stream/reference condition *)
  solid_wall_id : Z;         (* boundary marker corresponding to solid wall *)
  inflow_outflow_id : Z      (* boundary marker corresponding to inflow/outflow *)
}.

(** Modelled from the spec: the body of [EulerFV::compute_boundary_state],
    of which [aspatial.hpp] has only the declaration.  A solid-wall marker
    gives the interior state mirrored in the wall (the normal part of the
    momentum reversed, density and energy copied), an inflow/outflow marker
    gives the configured free-stream state, any other marker is a
    configuration error. *)
Definition compute_boundary_state (cfg : Config) (marker : Z) (ins : Vec4)
    (n : Normal) : Result Vec4 :=
  let vni := normal_velocity ins n in
  if decide (marker = solid_wall_id cfg) then
    Ok (mkVec4 (get ins 0)
               (get ins 1 - 2 * vni * fst n * get ins 0)
               (get ins 2 - 2 * vni * snd n * get ins 0)
               (get ins 3))
  else if decide (marker = inflow_outflow_id cfg) then Ok (uinf cfg)
  else Err ConfigurationError.

(** Velocity component along the face, for the tangent (-ny, nx) of the
    normal (nx, ny). *)
Definition tangential_velocity (u : Vec4) (n : Normal) : R :=
  (get u 2 * fst n - get u 1 * snd n) / get u 0.

(** Modelled from the spec: the face geometry of the data model, which the
    mesh class [UMesh2dh] (not among the sources) provides: owner cell,
    neighbour cell or boundary marker, unit normal, area. *)
Inductive FaceSide : Type :=
  | Neighbor (cell : nat)
  | Boundary (marker : Z).

(** Modelled from the spec: one face of the mesh. *)
Record Face : Type := mkFace {
  owner : nat;
  side : FaceSide;
  normal : Normal;
  area : R
}.

(** Modelled from the spec: the mesh as the assembly sees it, the number
    of real cells and the faces in their order. *)
Record Mesh : Type := mkMesh {
  nelem : nat;
  faces : list Face
}.

(** Every face refers to real cells. *)
Definition face_in_range (m : Mesh) (f : Face) : Prop :=
  (owner f < nelem m)%nat /\
  match side f with Neighbor j => (j < nelem m)%nat | Boundary _ => True end.

Definition well_formed (m : Mesh) : Prop := Forall (face_in_range m) (faces m).

Section Assembly.

(** The configured flux scheme, [InviscidFlux* inviflux]. *)
Variable inviflux : Vec4 -> Vec4 -> Normal -> Vec4.

(** The external reconstruction: the state of a cell extrapolated to a
    face.  At first order it is the cell-centred state itself. *)
Variable reconstruct : (nat -> Vec4) -> nat -> Face -> Vec4.

Variable cfg : Config.

(** Formal order of accuracy, 1 or 2 ([aspatial.hpp], line 92). *)
Variable order : nat.

(** Modelled from the spec: the state of a cell at a face, the raw
    cell-centred state at first order and the reconstructed one otherwise. *)
Definition face_state (u : nat -> Vec4) (cell : nat) (f : Face) : Vec4 :=
  if decide (order = 1%nat) then u cell else reconstruct u cell f.

(** Modelled from the spec: the per-face step of the residual assembly:
    left and right face states (the right one from the boundary treatment
    on a boundary face), the flux of the configured scheme, scaled by the
    face area. *)
Definition face_flux (u : nat -> Vec4) (f : Face) : Result Vec4 :=
  let ul := face_state u (owner f) f in
  let right :=
    match side f with
    | Neighbor j => Ok (face_state u j f)
    | Boundary marker => compute_boundary_state cfg marker ul (normal f)
    end in
  match right with
  | Ok ur => Ok (vscale (area f) (inviflux ul ur (normal f)))
  | Err e => Err e
  end.

(** Modelled from the spec: the scaled flux is added to the owner's
    residual and subtracted from the neighbour's; a boundary face touches
    only its owner. *)
Definition scatter (f : Face) (flux : Vec4) (residual : list Vec4) : list Vec4 :=
  let residual := alter (fun r => vadd r flux) (owner f) residual in
  match side f with
  | Neighbor j => alter (fun r => vsub r flux) j residual
  | Boundary _ => residual
  end.

(** Modelled from the spec: one pass over the faces, in mesh order; the
    first failure aborts the sweep and no partially accumulated buffer is
    handed back. *)
Fixpoint sweep (u : nat -> Vec4) (fs : list Face) (residual : list Vec4)
  : Result (list Vec4) :=
  match fs with
  | [] => Ok residual
  | f :: fs' =>
      match face_flux u f with
      | Ok flux => sweep u fs' (scatter f flux residual)
      | Err e => Err e
      end
  end.

(** Modelled from the spec: [EulerFV::compute_residual], declared in
    [aspatial.hpp] ("invokes flux calculating function after zeroing the
    residuals").  [residual] is the buffer as the previous call left it, one
    entry per real cell.  The time-step buffer [integ], which the same sweep
    fills, is left out: nothing below depends on it. *)
Definition compute_residual (m : Mesh) (u : nat -> Vec4) (residual : list Vec4)
  : Result (list Vec4) :=
  let residual := map (fun _ => zeros) residual in
  sweep u (faces m) residual.

End Assembly.

(** What one face, carrying the scaled flux [flux], adds to the residual
    of cell [c]. *)
Definition contribution (f : Face) (flux : Vec4) (c : nat) : Vec4 :=
  vsub (if decide (owner f = c) then flux else zeros)
       (match side f with
        | Neighbor j => if decide (j = c) then flux else zeros
        | Boundary _ => zeros
        end).

(** The sum of these contributions over a list of faces with their fluxes. *)
Fixpoint net (fs : list Face) (fluxes : list Vec4) (c : nat) : Vec4 :=
  match fs, fluxes with
  | f :: fs', flux :: fluxes' => vadd (contribution f flux c) (net fs' fluxes' c)
  | _, _ => zeros
  end.

(** The sum of the fluxes through the boundary faces. *)
Fixpoint boundary_total (fs : list Face) (fluxes : list Vec4) : Vec4 :=
  match fs, fluxes with
  | f :: fs', flux :: fluxes' =>
      match side f with
      | Neighbor _ => boundary_total fs' fluxes'
      | Boundary _ => vadd flux (boundary_total fs' fluxes')
      end
  | _, _ => zeros
  end.

(** The residual buffer after the fluxes of the faces [fs] have been
    scattered into it, one face after the other. *)
Fixpoint scatter_all (fs : list Face) (fluxes : list Vec4) (residual : list Vec4)
  : list Vec4 :=
  match fs, fluxes with
  | f :: fs', flux :: fluxes' => scatter_all fs' fluxes' (scatter f flux residual)
  | _, _ => residual
  end.

(** The sum of a buffer over all cells. *)
Definition vsum (l : list Vec4) : Vec4 := foldr vadd zeros l.

End EulerFV.

(** ** A sample mesh *)

(** Two cells sharing one interior face; the second cell also has a
    solid-wall face. *)
Definition sample_config : EulerFV.Config :=
  EulerFV.mkConfig u_rest 2%Z 4%Z.

Definition sample_mesh : EulerFV.Mesh :=
  EulerFV.mkMesh 2
    [ EulerFV.mkFace 0 (EulerFV.Neighbor 1) e_y 1;
      EulerFV.mkFace 1 (EulerFV.Boundary 2%Z) e_y 1 ].

(** First order: the face state is the cell-centred state. *)
Definition no_reconstruction (u : nat -> Vec4) (cell : nat) (f : EulerFV.Face) : Vec4 :=
  u cell.

(** ** Further notions used to state properties of the schemes *)

(** A state (or a flux vector) seen in the mirror image of the plane in
    the x-axis, and the normal seen the same way. *)
Definition reflect (u : Vec4) : Vec4 :=
  mkVec4 (get u 0) (get u 1) (- get u 2) (get u 3).

Definition reflect_normal (n : Normal) : Normal := (fst n, - snd n).

(** The state mirrored in the line with unit normal [n]: the normal part
    of the momentum is reversed. *)
Definition mirror_state (u : Vec4) (n : Normal) : Vec4 :=
  let mn := get u 1 * fst n + get u 2 * snd n in
  mkVec4 (get u 0) (get u 1 - 2 * mn * fst n) (get u 2 - 2 * mn * snd n) (get u 3).

Module RoeAverages.

(** The Roe averages of [RoeFlux::get_flux], lines 169-173, as functions
    of the two states; [pressure] is the pressure of lines 157-158 for a
    nonzero density. *)
Definition Rij (ul ur : Vec4) : R := sqrt (get ur 0 / get ul 0).

Definition rhoij (ul ur : Vec4) : R := Rij ul ur * get ul 0.

Definition vxij (ul ur : Vec4) : R :=
  (Rij ul ur * (get ur 1 / get ur 0) + get ul 1 / get ul 0) / (Rij ul ur + 1).

Definition vyij (ul ur : Vec4) : R :=
  (Rij ul ur * (get ur 2 / get ur 0) + get ul 2 / get ul 0) / (Rij ul ur + 1).

Definition Hij (g : R) (ul ur : Vec4) : R :=
  (Rij ul ur * ((get ur 3 + pressure g ur) / get ur 0)
   + (get ul 3 + pressure g ul) / get ul 0) / (Rij ul ur + 1).

(** The sum of line 233 with the eigenvalues of line 180 themselves in
    place of the magnitudes of the entropy-fixed ones. *)
Definition wave_sum (w : RoeFlux.Locals) (k : nat) : R :=
  RoeFlux.vnij w * get (RoeFlux.dw w) 0 * get (RoeFlux.r0 w) k
  + RoeFlux.vnij w * get (RoeFlux.dw w) 1 * get (RoeFlux.r1 w) k
  + (RoeFlux.vnij w + RoeFlux.cij w) * get (RoeFlux.dw w) 2 * get (RoeFlux.r2 w) k
  + (RoeFlux.vnij w - RoeFlux.cij w) * get (RoeFlux.dw w) 3 * get (RoeFlux.r3 w) k.

(** What the shear wave adds to entry [k] of that sum, times the factor
    by which the code's scaling of the second eigenvector (by [cij], line
    203-205) differs from a scaling by [rhoij]. *)
Definition shear_excess (ul ur : Vec4) (w : RoeFlux.Locals) (k : nat) : R :=
  (1 - rhoij ul ur / RoeFlux.cij w)
  * (RoeFlux.vnij w * get (RoeFlux.dw w) 1 * get (RoeFlux.r1 w) k).

End RoeAverages.

(** Two more sample states of unit density and pressure 5/7, moving at
    Mach 7 along and against the y-axis. *)
Definition u_fast : Vec4 := mkVec4 1 0 7 (184 / 7).
Definition u_fast_back : Vec4 := mkVec4 1 0 (-7) (184 / 7).

(** A state at rest with the pressure 5/7 of [u_rest] and twice its
    density. *)
Definition u_dense : Vec4 := mkVec4 2 0 0 (25 / 14).

(** * Theorems *)

(** ** Literals and basic facts *)

Lemma lit_half : 0.5 = / 2. Proof. lra. Qed.
Lemma lit_one : 1.0 = 1. Proof. lra. Qed.
Lemma lit_two : 2.0 = 2. Proof. lra. Qed.
Lemma lit_four : 4.0 = 4. Proof. lra. Qed.
Lemma lit_mone : -1.0 = -1. Proof. lra. Qed.
Lemma lit_mtwo : -2.0 = -2. Proof. lra. Qed.

Ltac lits :=
  rewrite ?lit_half, ?lit_one, ?lit_two, ?lit_four, ?lit_mone, ?lit_mtwo in *.

Section StateFacts.

Variable g : R.
Hypothesis g_gt_1 : 1 < g.

Lemma sound_speed_pos (u : Vec4) : valid_state g u -> 0 < sound_speed g u.
Proof.
  intros [Hrho Hp]. unfold sound_speed. apply sqrt_lt_R0.
  apply Rdiv_lt_0_compat; [nra | exact Hrho].
Qed.

Lemma sound_speed_sqr (u : Vec4) :
  valid_state g u ->
  sound_speed g u * sound_speed g u = g * pressure g u / get u 0.
Proof.
  intros [Hrho Hp]. unfold sound_speed. apply sqrt_sqrt.
  apply Rlt_le, Rdiv_lt_0_compat; [nra | exact Hrho].
Qed.

(** The total energy recovered from the speed of sound. *)
Lemma energy_of_sound_speed (u : Vec4) :
  valid_state g u ->
  get u 3 = get u 0 * (sound_speed g u * sound_speed g u) / (g * (g - 1))
            + (get u 1 * get u 1 + get u 2 * get u 2) / (2 * get u 0).
Proof.
  intros Hv. rewrite (sound_speed_sqr u Hv). destruct Hv as [Hrho Hp].
  destruct u as [rho mx my E]. unfold pressure in *. cbn [get pow] in *. lits.
  field. lra.
Qed.

End StateFacts.

(** ** The Van Leer split fluxes, branch by branch *)

Section VanLeerBranches.

Variable g : R.
Hypothesis g_gt_1 : 1 < g.

Import VanLeerFlux VanLeerSpec.

Lemma vec4_eq (a0 a1 a2 a3 b0 b1 b2 b3 : R) :
  a0 = b0 -> a1 = b1 -> a2 = b2 -> a3 = b3 -> mkVec4 a0 a1 a2 a3 = mkVec4 b0 b1 b2 b3.
Proof. intros; subst; reflexivity. Qed.

Lemma fiplus_cases (u : Vec4) (n : Normal) :
  fiplus g u n =
  if Rlt_dec (normal_mach g u n) (-1) then zeros
  else if Rgt_dec (normal_mach g u n) 1 then euler_flux g u n
  else blend_left g u n.
Proof.
  unfold fiplus, blend_left, euler_flux, normal_mach, normal_velocity,
    sound_speed, pressure.
  cbv zeta. lits.
  destruct (Rlt_dec _ (-1)); [reflexivity |].
  destruct (Rgt_dec _ 1); [reflexivity |].
  apply vec4_eq; cbn [pow]; rewrite ?Rmult_1_r; reflexivity.
Qed.

Lemma fjminus_cases (u : Vec4) (n : Normal) :
  fjminus g u n =
  if Rgt_dec (normal_mach g u n) 1 then zeros
  else if Rlt_dec (normal_mach g u n) (-1) then euler_flux g u n
  else blend_right g u n.
Proof.
  unfold fjminus, blend_right, euler_flux, normal_mach, normal_velocity,
    sound_speed, pressure.
  cbv zeta. lits.
  destruct (Rgt_dec _ 1); [reflexivity |].
  destruct (Rlt_dec _ (-1)); [reflexivity |].
  apply vec4_eq; cbn [pow]; rewrite ?Rmult_1_r; unfold Rdiv; ring.
Qed.

(** Reversing the normal reverses the normal velocity and Mach number. *)
Lemma normal_velocity_nopp (u : Vec4) (n : Normal) :
  normal_velocity u (nopp n) = - normal_velocity u n.
Proof. unfold normal_velocity, nopp. cbn [fst snd]. unfold Rdiv. ring. Qed.

Lemma normal_mach_nopp (u : Vec4) (n : Normal) :
  normal_mach g u (nopp n) = - normal_mach g u n.
Proof. unfold normal_mach. rewrite normal_velocity_nopp. unfold Rdiv. ring. Qed.

Lemma euler_flux_nopp (u : Vec4) (n : Normal) :
  euler_flux g u (nopp n) = vopp (euler_flux g u n).
Proof.
  unfold euler_flux. cbv zeta. rewrite normal_velocity_nopp.
  unfold vopp, nopp. cbn [fst snd x0 x1 x2 x3]. apply vec4_eq; ring.
Qed.

Lemma blend_right_mirror (u : Vec4) (n : Normal) :
  blend_right g u n = vopp (blend_left g u (nopp n)).
Proof.
  unfold blend_right, blend_left. cbv zeta.
  rewrite normal_mach_nopp, normal_velocity_nopp.
  unfold vopp, nopp. cbn [fst snd x0 x1 x2 x3 pow].
  apply vec4_eq; unfold Rdiv; ring.
Qed.

Ltac open_state u :=
  let Hc := fresh "Hc" in
  let HE := fresh "HE" in
  let Hv := fresh "Hv" in
  match goal with H : valid_state g u |- _ =>
    pose proof (sound_speed_pos g g_gt_1 u H) as Hc;
    pose proof (energy_of_sound_speed g g_gt_1 u H) as HE;
    destruct H as [Hv _]
  end;
  unfold normal_mach in *;
  set (c := sound_speed g u) in *; clearbody c;
  unfold pressure, normal_velocity in *;
  destruct u as [rho mx my E];
  cbn [get x0 x1 x2 x3] in *; subst E; lits.

(** At a sonic point the blending polynomial meets the physical flux. *)
Lemma blend_left_sonic (u : Vec4) (n : Normal) :
  valid_state g u -> normal_mach g u n = 1 ->
  blend_left g u n = euler_flux g u n.
Proof.
  intros Hval HM. unfold blend_left, euler_flux. cbv zeta.
  rewrite HM. open_state u. destruct n as [nx ny]. cbn [fst snd pow] in *.
  assert (Hvn : c = (mx * nx + my * ny) / rho).
  { transitivity ((mx * nx + my * ny) / rho / c * c); [rewrite HM; ring | field; lra]. }
  clear HM. subst c.
  apply vec4_eq; field; repeat split; nra.
Qed.

Lemma blend_left_antisonic (u : Vec4) (n : Normal) :
  normal_mach g u n = -1 -> blend_left g u n = zeros.
Proof.
  intros HM. unfold blend_left, zeros. cbv zeta. rewrite HM.
  apply vec4_eq; cbn [pow]; unfold Rdiv; ring.
Qed.

(** The two subsonic split fluxes add up to the physical flux. *)
Lemma blend_sum (u : Vec4) (n : Normal) :
  valid_state g u ->
  vadd (blend_left g u n) (blend_right g u n) = euler_flux g u n.
Proof.
  intros Hval. unfold blend_left, blend_right, euler_flux, vadd. cbv zeta.
  open_state u. destruct n as [nx ny]. cbn [fst snd pow x0 x1 x2 x3] in *.
  apply vec4_eq; field; repeat split; nra.
Qed.


Lemma blend_right_sonic (u : Vec4) (n : Normal) :
  normal_mach g u n = 1 -> blend_right g u n = zeros.
Proof.
  intros HM. unfold blend_right, zeros. cbv zeta. rewrite HM.
  apply vec4_eq; cbn [pow]; unfold Rdiv; ring.
Qed.

Lemma vopp_vopp (a : Vec4) : vopp (vopp a) = a.
Proof. destruct a. unfold vopp. cbn [x0 x1 x2 x3]. apply vec4_eq; ring. Qed.

Lemma vopp_zeros : vopp zeros = zeros.
Proof. unfold vopp, zeros. cbn [x0 x1 x2 x3]. apply vec4_eq; ring. Qed.

Lemma nopp_nopp (n : Normal) : nopp (nopp n) = n.
Proof. destruct n. unfold nopp. cbn [fst snd]. f_equal; ring. Qed.

Lemma blend_right_antisonic (u : Vec4) (n : Normal) :
  valid_state g u -> normal_mach g u n = -1 ->
  blend_right g u n = euler_flux g u n.
Proof.
  intros Hval HM. rewrite blend_right_mirror, blend_left_sonic.
  - rewrite euler_flux_nopp. apply vopp_vopp.
  - exact Hval.
  - rewrite normal_mach_nopp, HM. ring.
Qed.

(** Each split flux with the normal reversed is the negated other one. *)
Lemma fiplus_nopp (u : Vec4) (n : Normal) :
  fiplus g u (nopp n) = vopp (fjminus g u n).
Proof.
  rewrite fiplus_cases, fjminus_cases, normal_mach_nopp.
  destruct (Rlt_dec (- normal_mach g u n) (-1)) as [H1 | H1];
    destruct (Rgt_dec (normal_mach g u n) 1) as [H2 | H2]; try lra.
  - symmetry. apply vopp_zeros.
  - destruct (Rgt_dec (- normal_mach g u n) 1) as [H3 | H3];
      destruct (Rlt_dec (normal_mach g u n) (-1)) as [H4 | H4]; try lra.
    + apply euler_flux_nopp.
    + rewrite blend_right_mirror. symmetry. apply vopp_vopp.
Qed.

Lemma fjminus_nopp (u : Vec4) (n : Normal) :
  fjminus g u (nopp n) = vopp (fiplus g u n).
Proof.
  rewrite <- (nopp_nopp n) at 2. rewrite fiplus_nopp. symmetry. apply vopp_vopp.
Qed.

Lemma get_flux_split (ul ur : Vec4) (n : Normal) :
  get_flux g ul ur n = vadd (fiplus g ul n) (fjminus g ur n).
Proof. reflexivity. Qed.

Lemma vadd_zeros_l (a : Vec4) : vadd zeros a = a.
Proof. destruct a. unfold vadd, zeros. cbn [x0 x1 x2 x3]. apply vec4_eq; ring. Qed.

Lemma vadd_zeros_r (a : Vec4) : vadd a zeros = a.
Proof. destruct a. unfold vadd, zeros. cbn [x0 x1 x2 x3]. apply vec4_eq; ring. Qed.

Lemma vopp_vadd_swap (a b : Vec4) : vadd (vopp b) (vopp a) = vopp (vadd a b).
Proof. unfold vadd, vopp. cbn [x0 x1 x2 x3]. apply vec4_eq; ring. Qed.

(** Consistency of the Van Leer scheme: with equal states on both sides it
    returns the physical flux. *)
Lemma vanleer_consistent (u : Vec4) (n : Normal) :
  valid_state g u -> get_flux g u u n = euler_flux g u n.
Proof.
  intros Hval. rewrite get_flux_split, fiplus_cases, fjminus_cases.
  destruct (Rlt_dec (normal_mach g u n) (-1)) as [H1 | H1];
    destruct (Rgt_dec (normal_mach g u n) 1) as [H2 | H2]; try lra.
  - apply vadd_zeros_l.
  - apply vadd_zeros_r.
  - apply blend_sum. exact Hval.
Qed.

(** C3. Supersonic reduction of the Van Leer scheme.  For valid states: a
    left state with normal Mach number >= 1 contributes its full physical
    flux and one with normal Mach number <= -1 contributes the zero vector;
    a right state with normal Mach number <= -1 contributes its full physical
    flux and one with normal Mach number >= 1 contributes zero; hence the
    whole flux is the left (right) physical flux when both sides are
    supersonic in the direction of (against) the normal. *)
Theorem C3_vanleer_supersonic_reduction (ul ur : Vec4) (n : Normal) :
  valid_state g ul -> valid_state g ur ->
  (1 <= normal_mach g ul n -> fiplus g ul n = euler_flux g ul n) /\
  (normal_mach g ul n <= -1 -> fiplus g ul n = zeros) /\
  (normal_mach g ur n <= -1 -> fjminus g ur n = euler_flux g ur n) /\
  (1 <= normal_mach g ur n -> fjminus g ur n = zeros) /\
  (1 <= normal_mach g ul n -> 1 <= normal_mach g ur n ->
   get_flux g ul ur n = euler_flux g ul n) /\
  (normal_mach g ul n <= -1 -> normal_mach g ur n <= -1 ->
   get_flux g ul ur n = euler_flux g ur n).
Proof.
  intros Hl Hr.
  assert (A1 : 1 <= normal_mach g ul n -> fiplus g ul n = euler_flux g ul n).
  { intros HM. rewrite fiplus_cases.
    destruct (Rlt_dec _ (-1)); [lra |]. destruct (Rgt_dec _ 1); [reflexivity |].
    apply blend_left_sonic; [exact Hl | lra]. }
  assert (A2 : normal_mach g ul n <= -1 -> fiplus g ul n = zeros).
  { intros HM. rewrite fiplus_cases.
    destruct (Rlt_dec _ (-1)); [reflexivity |]. destruct (Rgt_dec _ 1); [lra |].
    apply blend_left_antisonic; lra. }
  assert (A3 : normal_mach g ur n <= -1 -> fjminus g ur n = euler_flux g ur n).
  { intros HM. rewrite fjminus_cases.
    destruct (Rgt_dec _ 1); [lra |]. destruct (Rlt_dec _ (-1)); [reflexivity |].
    apply blend_right_antisonic; [exact Hr | lra]. }
  assert (A4 : 1 <= normal_mach g ur n -> fjminus g ur n = zeros).
  { intros HM. rewrite fjminus_cases.
    destruct (Rgt_dec _ 1); [reflexivity |]. destruct (Rlt_dec _ (-1)); [lra |].
    apply blend_right_sonic; lra. }
  repeat split; try assumption.
  - intros H1 H2. rewrite get_flux_split, (A1 H1), (A4 H2). apply vadd_zeros_r.
  - intros H1 H2. rewrite get_flux_split, (A2 H1), (A3 H2). apply vadd_zeros_l.
Qed.

(** C4. Subsonic blending.  For a valid state with normal Mach number in
    [-1, 1], used as the left state its contribution is the blending
    polynomial f0..f3 of the design; used as the right state its contribution
    is the mirrored polynomial, which is the negated left polynomial
    evaluated with the normal reversed. *)
Theorem C4_vanleer_subsonic_blending (u : Vec4) (n : Normal) :
  valid_state g u -> -1 <= normal_mach g u n <= 1 ->
  fiplus g u n = blend_left g u n /\
  fjminus g u n = blend_right g u n /\
  blend_right g u n = vopp (blend_left g u (nopp n)).
Proof.
  intros _ HM. repeat split.
  - rewrite fiplus_cases.
    destruct (Rlt_dec _ (-1)); [lra |]. destruct (Rgt_dec _ 1); [lra | reflexivity].
  - rewrite fjminus_cases.
    destruct (Rgt_dec _ 1); [lra |]. destruct (Rlt_dec _ (-1)); [lra | reflexivity].
  - apply blend_right_mirror.
Qed.

(** C10. Skew symmetry of the Van Leer scheme: exchanging the two states
    and reversing the normal negates the flux, component by component. *)
Theorem C10_vanleer_skew_symmetric (ul ur : Vec4) (n : Normal) :
  valid_state g ul -> valid_state g ur -> unit_normal n ->
  get_flux g ur ul (nopp n) = vopp (get_flux g ul ur n).
Proof.
  intros _ _ _. rewrite !get_flux_split, fiplus_nopp, fjminus_nopp.
  apply vopp_vadd_swap.
Qed.

End VanLeerBranches.

(** ** Rotational invariance of the Van Leer scheme *)

Section Rotation.

Variable g : R.
Variable theta : R.

Import VanLeerFlux VanLeerSpec.

Lemma cos_sin_unit : cos theta * cos theta + sin theta * sin theta = 1.
Proof. pose proof (sin2_cos2 theta) as H. unfold Rsqr in H. lra. Qed.

(** A rotation preserves the Euclidean inner product. *)
Lemma rotate_dot (a b c d : R) :
  (cos theta * a - sin theta * b) * (cos theta * c - sin theta * d)
  + (sin theta * a + cos theta * b) * (sin theta * c + cos theta * d)
  = a * c + b * d.
Proof.
  transitivity ((cos theta * cos theta + sin theta * sin theta) * (a * c + b * d));
    [ring | rewrite cos_sin_unit; ring].
Qed.

Lemma pressure_rotate (u : Vec4) : pressure g (rotate theta u) = pressure g u.
Proof.
  unfold pressure, rotate. cbn [get x0 x1 x2 x3 pow]. rewrite !Rmult_1_r.
  rewrite rotate_dot. reflexivity.
Qed.

Lemma sound_speed_rotate (u : Vec4) : sound_speed g (rotate theta u) = sound_speed g u.
Proof. unfold sound_speed. rewrite pressure_rotate. reflexivity. Qed.

Lemma normal_velocity_rotate (u : Vec4) (n : Normal) :
  normal_velocity (rotate theta u) (rotate_normal theta n) = normal_velocity u n.
Proof.
  unfold normal_velocity, rotate, rotate_normal. cbn [get x0 x1 x2 x3 fst snd].
  rewrite rotate_dot. reflexivity.
Qed.

Lemma normal_mach_rotate (u : Vec4) (n : Normal) :
  normal_mach g (rotate theta u) (rotate_normal theta n) = normal_mach g u n.
Proof.
  unfold normal_mach. rewrite normal_velocity_rotate, sound_speed_rotate. reflexivity.
Qed.

Lemma speed_sqr_rotate (u : Vec4) :
  (get (rotate theta u) 1 / get u 0) ^ 2 + (get (rotate theta u) 2 / get u 0) ^ 2
  = (get u 1 / get u 0) ^ 2 + (get u 2 / get u 0) ^ 2.
Proof.
  unfold rotate. cbn [get x0 x1 x2 x3 pow]. rewrite !Rmult_1_r. unfold Rdiv.
  transitivity (((cos theta * x1 u - sin theta * x2 u) * (cos theta * x1 u - sin theta * x2 u)
                 + (sin theta * x1 u + cos theta * x2 u) * (sin theta * x1 u + cos theta * x2 u))
                * (/ x0 u * / x0 u)); [ring |].
  rewrite rotate_dot. ring.
Qed.

(** The pieces of the split fluxes are equivariant. *)
Lemma euler_flux_rotate (u : Vec4) (n : Normal) :
  euler_flux g (rotate theta u) (rotate_normal theta n) = rotate theta (euler_flux g u n).
Proof.
  unfold euler_flux. cbv zeta. rewrite normal_velocity_rotate, pressure_rotate.
  unfold rotate, rotate_normal. cbn [get x0 x1 x2 x3 fst snd].
  apply vec4_eq; ring.
Qed.

Lemma blend_left_rotate (u : Vec4) (n : Normal) :
  blend_left g (rotate theta u) (rotate_normal theta n) = rotate theta (blend_left g u n).
Proof.
  unfold blend_left. cbv zeta.
  rewrite normal_mach_rotate, normal_velocity_rotate, sound_speed_rotate.
  change (get (rotate theta u) 0) with (get u 0). rewrite speed_sqr_rotate.
  unfold rotate, rotate_normal. cbn [get x0 x1 x2 x3 fst snd].
  apply vec4_eq; unfold Rdiv; ring.
Qed.

Lemma zeros_rotate : rotate theta zeros = zeros.
Proof. unfold rotate, zeros. cbn [get x0 x1 x2 x3]. apply vec4_eq; ring. Qed.

Lemma vadd_rotate (a b : Vec4) : rotate theta (vadd a b) = vadd (rotate theta a) (rotate theta b).
Proof. unfold rotate, vadd. cbn [get x0 x1 x2 x3]. apply vec4_eq; ring. Qed.

Lemma vopp_rotate (a : Vec4) : rotate theta (vopp a) = vopp (rotate theta a).
Proof. unfold rotate, vopp. cbn [get x0 x1 x2 x3]. apply vec4_eq; ring. Qed.

Lemma nopp_rotate (n : Normal) : rotate_normal theta (nopp n) = nopp (rotate_normal theta n).
Proof. unfold rotate_normal, nopp. cbn [fst snd]. f_equal; ring. Qed.

Lemma blend_right_rotate (u : Vec4) (n : Normal) :
  blend_right g (rotate theta u) (rotate_normal theta n) = rotate theta (blend_right g u n).
Proof.
  rewrite !blend_right_mirror, <- nopp_rotate, blend_left_rotate, vopp_rotate. reflexivity.
Qed.

Lemma fiplus_rotate (u : Vec4) (n : Normal) :
  fiplus g (rotate theta u) (rotate_normal theta n) = rotate theta (fiplus g u n).
Proof.
  rewrite !fiplus_cases, normal_mach_rotate.
  destruct (Rlt_dec _ (-1)); [symmetry; apply zeros_rotate |].
  destruct (Rgt_dec _ 1); [apply euler_flux_rotate | apply blend_left_rotate].
Qed.

Lemma fjminus_rotate (u : Vec4) (n : Normal) :
  fjminus g (rotate theta u) (rotate_normal theta n) = rotate theta (fjminus g u n).
Proof.
  rewrite !fjminus_cases, normal_mach_rotate.
  destruct (Rgt_dec _ 1); [symmetry; apply zeros_rotate |].
  destruct (Rlt_dec _ (-1)); [apply euler_flux_rotate | apply blend_right_rotate].
Qed.

(** Rotating by [- theta] undoes the rotation by [theta]. *)
Lemma rotate_back (a : Vec4) : rotate (- theta) (rotate theta a) = a.
Proof.
  destruct a as [a0 a1 a2 a3]. unfold rotate. cbn [get x0 x1 x2 x3].
  rewrite cos_neg, sin_neg. apply vec4_eq; try reflexivity.
  - transitivity ((cos theta * cos theta + sin theta * sin theta) * a1);
      [ring | rewrite cos_sin_unit; ring].
  - transitivity ((cos theta * cos theta + sin theta * sin theta) * a2);
      [ring | rewrite cos_sin_unit; ring].
Qed.

(** The Van Leer flux of the rotated problem, with its momentum entries
    rotated back, is the flux of the original problem. *)
Theorem vanleer_rotation_invariant (ul ur : Vec4) (n : Normal) :
  valid_state g ul -> valid_state g ur -> unit_normal n ->
  get_flux g ul ur n =
  rotate (- theta)
    (get_flux g (rotate theta ul) (rotate theta ur) (rotate_normal theta n)).
Proof.
  intros _ _ _. rewrite !get_flux_split, fiplus_rotate, fjminus_rotate, <- vadd_rotate.
  symmetry. apply rotate_back.
Qed.

End Rotation.

(** ** The Roe scheme *)

Section RoeTheory.

Variable g : R.

Import RoeFlux.

Lemma harten_hyman_eps (a b : R) :
  (let eps := 0 in
   let eps := if Rlt_dec eps a then a else eps in
   if Rlt_dec eps b then b else eps) = Rmax 0 (Rmax a b).
Proof.
  cbv zeta. unfold Rmax.
  repeat (destruct (Rlt_dec _ _) || destruct (Rle_dec _ _)); lra.
Qed.

Lemma harten_hyman_floor (l eps : R) :
  0 <= eps -> eps <= Rabs (if Rlt_dec (Rabs l) eps then eps else l).
Proof.
  intros He. destruct (Rlt_dec (Rabs l) eps) as [H | H].
  - rewrite Rabs_right; lra.
  - lra.
Qed.

(** The one-sided quantities of [RoeFlux::get_flux] are those of the state. *)
Lemma roe_pressure (u : Vec4) :
  0 < get u 0 ->
  (g - 1.0) * (get u 3 - 0.5 * get u 0 *
     (get u 1 / get u 0 * (get u 1 / get u 0) + get u 2 / get u 0 * (get u 2 / get u 0)))
  = pressure g u.
Proof.
  intros Hrho. unfold pressure. destruct u as [rho mx my E].
  cbn [get x0 x1 x2 x3 pow] in *. lits. field. lra.
Qed.

Lemma roe_normal_velocity (u : Vec4) (n : Normal) :
  get u 1 / get u 0 * fst n + get u 2 / get u 0 * snd n = normal_velocity u n.
Proof. unfold normal_velocity, Rdiv. ring. Qed.

Lemma locals_left (fi_init ul ur : Vec4) (n : Normal) :
  0 < get ul 0 ->
  let w := locals g fi_init ul ur n in
  vni w = normal_velocity ul n /\ ci w = sound_speed g ul.
Proof.
  intros Hrho. cbv zeta. unfold locals. cbv zeta. cbn [vni ci]. split.
  - apply roe_normal_velocity.
  - unfold sound_speed. rewrite (roe_pressure ul Hrho). reflexivity.
Qed.

Lemma locals_right (fi_init ul ur : Vec4) (n : Normal) :
  0 < get ur 0 ->
  let w := locals g fi_init ul ur n in
  vnj w = normal_velocity ur n /\ cj w = sound_speed g ur.
Proof.
  intros Hrho. cbv zeta. unfold locals. cbv zeta. cbn [vnj cj]. split.
  - apply roe_normal_velocity.
  - unfold sound_speed. rewrite (roe_pressure ur Hrho). reflexivity.
Qed.

(** C5. Harten-Hyman entropy fix.  In each of the three eigenvalue groups
    (lambda = vn_avg twice, vn_avg + c_avg, vn_avg - c_avg) the value of eps
    is the maximum of 0, lambda minus the left characteristic speed and the
    right characteristic speed minus lambda; an eigenvalue with
    |lambda| < eps is replaced by eps and is otherwise kept; and every
    eigenvalue the flux sum uses has magnitude at least the eps of its
    group.  The left and right characteristic speeds are built from the
    normal velocity and the sound speed of the left and right state. *)
Theorem C5_harten_hyman_entropy_fix (fi_init ul ur : Vec4) (n : Normal) :
  valid_state g ul -> valid_state g ur ->
  let w := locals g fi_init ul ur n in
  let lam0 := vnij w in
  let lam2 := vnij w + cij w in
  let lam3 := vnij w - cij w in
  (vni w = normal_velocity ul n /\ ci w = sound_speed g ul /\
   vnj w = normal_velocity ur n /\ cj w = sound_speed g ur) /\
  (eps0 w = Rmax 0 (Rmax (lam0 - vni w) (vnj w - lam0)) /\
   eps2 w = Rmax 0 (Rmax (lam2 - (vni w + ci w)) (vnj w + cj w - lam2)) /\
   eps3 w = Rmax 0 (Rmax (lam3 - (vni w - ci w)) (vnj w - cj w - lam3))) /\
  (l0 w = (if Rlt_dec (Rabs lam0) (eps0 w) then eps0 w else lam0) /\
   l1 w = (if Rlt_dec (Rabs lam0) (eps0 w) then eps0 w else lam0) /\
   l2 w = (if Rlt_dec (Rabs lam2) (eps2 w) then eps2 w else lam2) /\
   l3 w = (if Rlt_dec (Rabs lam3) (eps3 w) then eps3 w else lam3)) /\
  (eps0 w <= Rabs (l0 w) /\ eps0 w <= Rabs (l1 w) /\
   eps2 w <= Rabs (l2 w) /\ eps3 w <= Rabs (l3 w)).
Proof.
  intros [Hl _] [Hr _]. cbv zeta.
  set (w := locals g fi_init ul ur n).
  assert (E0 : eps0 w = Rmax 0 (Rmax (vnij w - vni w) (vnj w - vnij w)))
    by apply harten_hyman_eps.
  assert (E2 : eps2 w = Rmax 0 (Rmax (vnij w + cij w - (vni w + ci w))
                                     (vnj w + cj w - (vnij w + cij w))))
    by apply harten_hyman_eps.
  assert (E3 : eps3 w = Rmax 0 (Rmax (vnij w - cij w - (vni w - ci w))
                                     (vnj w - cj w - (vnij w - cij w))))
    by apply harten_hyman_eps.
  assert (L0 : l0 w = if Rlt_dec (Rabs (vnij w)) (eps0 w) then eps0 w else vnij w)
    by reflexivity.
  assert (L1 : l1 w = if Rlt_dec (Rabs (vnij w)) (eps0 w) then eps0 w else vnij w)
    by reflexivity.
  assert (L2 : l2 w = if Rlt_dec (Rabs (vnij w + cij w)) (eps2 w)
                      then eps2 w else vnij w + cij w)
    by reflexivity.
  assert (L3 : l3 w = if Rlt_dec (Rabs (vnij w - cij w)) (eps3 w)
                      then eps3 w else vnij w - cij w)
    by reflexivity.
  repeat split; try assumption.
  - apply (locals_left fi_init ul ur n Hl).
  - apply (locals_left fi_init ul ur n Hl).
  - apply (locals_right fi_init ul ur n Hr).
  - apply (locals_right fi_init ul ur n Hr).
  - rewrite L0. apply harten_hyman_floor. rewrite E0. apply Rmax_l.
  - rewrite L1. apply harten_hyman_floor. rewrite E0. apply Rmax_l.
  - rewrite L2. apply harten_hyman_floor. rewrite E2. apply Rmax_l.
  - rewrite L3. apply harten_hyman_floor. rewrite E3. apply Rmax_l.
Qed.


(** What the arrays [fi] and [fj] hold after lines 222-225. *)
Lemma locals_fi (fi_init ul ur : Vec4) (n : Normal) :
  0 < get ul 0 ->
  fi (locals g fi_init ul ur n) =
  mkVec4 (get (euler_flux g ul n) 0) (get (euler_flux g ul n) 1)
         (get fi_init 2) (get fi_init 3).
Proof.
  intros Hrho. unfold locals. cbv zeta. cbn [fi].
  rewrite (roe_pressure ul Hrho), roe_normal_velocity.
  unfold euler_flux. cbv zeta. cbn [get x0 x1 x2 x3] in *.
  apply vec4_eq; try reflexivity.
  field. lra.
Qed.

Lemma locals_fj (fi_init ul ur : Vec4) (n : Normal) :
  0 < get ur 0 ->
  fj (locals g fi_init ul ur n) = euler_flux g ur n.
Proof.
  intros Hrho. unfold locals. cbv zeta. cbn [fj].
  rewrite (roe_pressure ur Hrho), roe_normal_velocity.
  unfold euler_flux. cbv zeta. cbn [get x0 x1 x2 x3] in *.
  apply vec4_eq; try reflexivity; field; lra.
Qed.

(** The dissipation term does not read [fi]. *)
Lemma dissipation_fi_init (a b ul ur : Vec4) (n : Normal) (k : nat) :
  dissipation (locals g a ul ur n) k = dissipation (locals g b ul ur n) k.
Proof. reflexivity. Qed.

(** The flux [RoeFlux::get_flux] returns: the density and x-momentum
    entries follow the design formula, the y-momentum and energy entries
    use the initial content of [fi[2]] and [fi[3]] where the design has the
    left physical flux. *)
Lemma roe_get_flux_entries (fi_init ul ur : Vec4) (n : Normal) :
  0 < get ul 0 -> 0 < get ur 0 ->
  let w := locals g zeros ul ur n in
  let FL := euler_flux g ul n in
  let FR := euler_flux g ur n in
  get_flux g fi_init ul ur n =
  mkVec4 (/ 2 * (get FL 0 + get FR 0 - dissipation w 0))
         (/ 2 * (get FL 1 + get FR 1 - dissipation w 1))
         (/ 2 * (get fi_init 2 + get FR 2 - dissipation w 2))
         (/ 2 * (get fi_init 3 + get FR 3 - dissipation w 3)).
Proof.
  intros Hl Hr. cbv zeta. unfold get_flux. cbv zeta.
  rewrite (locals_fi fi_init ul ur n Hl), (locals_fj fi_init ul ur n Hr).
  rewrite !(dissipation_fi_init fi_init zeros). lits.
  cbn [get x0 x1 x2 x3]. reflexivity.
Qed.

(** The returned flux is the design formula exactly when the stack
    happened to hold the left physical flux in [fi[2]] and [fi[3]]. *)
Lemma roe_get_flux_design_iff (fi_init ul ur : Vec4) (n : Normal) :
  0 < get ul 0 -> 0 < get ur 0 ->
  get_flux g fi_init ul ur n = RoeSpec.flux g ul ur n <->
  get fi_init 2 = get (euler_flux g ul n) 2 /\
  get fi_init 3 = get (euler_flux g ul n) 3.
Proof.
  intros Hl Hr. rewrite (roe_get_flux_entries fi_init ul ur n Hl Hr).
  unfold RoeSpec.flux. cbv zeta. split.
  - intros H. injection H as H2 H3.
    unfold euler_flux. cbv zeta. cbn [get x0 x1 x2 x3]. split; lra.
  - intros [H2 H3]. rewrite H2, H3. reflexivity.
Qed.

(** With equal states on both sides every characteristic jump vanishes. *)
Lemma dissipation_equal_states (fi_init u : Vec4) (n : Normal) (k : nat) :
  dissipation (locals g fi_init u u n) k = 0.
Proof.
  unfold dissipation, locals. cbv zeta. cbn [l0 l1 l2 l3 dw r0 r1 r2 r3].
  cbn [get x0 x1 x2 x3]. unfold Rdiv.
  repeat match goal with |- context [Rabs ?a] => generalize (Rabs a); intro end.
  destruct k as [| [| [| k]]]; cbn [get x0 x1 x2 x3]; ring.
Qed.

Lemma roe_equal_states (fi_init u : Vec4) (n : Normal) :
  0 < get u 0 ->
  let F := euler_flux g u n in
  get_flux g fi_init u u n =
  mkVec4 (get F 0) (get F 1)
         (/ 2 * (get fi_init 2 + get F 2)) (/ 2 * (get fi_init 3 + get F 3)).
Proof.
  intros Hrho. cbv zeta. rewrite (roe_get_flux_entries fi_init u u n Hrho Hrho).
  cbv zeta. rewrite !dissipation_equal_states. apply vec4_eq; field.
Qed.

(** The design formula is consistent: with equal states it is the
    physical flux. *)
Lemma roe_design_consistent (u : Vec4) (n : Normal) :
  RoeSpec.flux g u u n = euler_flux g u n.
Proof.
  unfold RoeSpec.flux. cbv zeta. rewrite !dissipation_equal_states.
  destruct (euler_flux g u n) as [f0 f1 f2 f3]. cbn [get x0 x1 x2 x3].
  apply vec4_eq; field.
Qed.

End RoeTheory.

(** ** Rotational invariance of the Roe design formula *)

Section RoeRotation.

Variable g : R.
Variable theta : R.

Import RoeFlux.

Local Abbreviation cs := (cos theta).
Local Abbreviation sn := (sin theta).

Lemma rotate_cross (a b c d : R) :
  (cs * a - sn * b) * (sn * c + cs * d) - (sn * a + cs * b) * (cs * c - sn * d)
  = a * d - b * c.
Proof.
  transitivity ((cs * cs + sn * sn) * (a * d - b * c));
    [ring | rewrite cos_sin_unit; ring].
Qed.

Lemma rot_div_x (a b r : R) : (cs * a - sn * b) / r = cs * (a / r) - sn * (b / r).
Proof. unfold Rdiv. ring. Qed.

Lemma rot_div_y (a b r : R) : (sn * a + cs * b) / r = sn * (a / r) + cs * (b / r).
Proof. unfold Rdiv. ring. Qed.

Lemma rot_avg_x (k a b c d q : R) :
  (k * (cs * a - sn * b) + (cs * c - sn * d)) / q
  = cs * ((k * a + c) / q) - sn * ((k * b + d) / q).
Proof. unfold Rdiv. ring. Qed.

Lemma rot_avg_y (k a b c d q : R) :
  (k * (sn * a + cs * b) + (sn * c + cs * d)) / q
  = sn * ((k * a + c) / q) + cs * ((k * b + d) / q).
Proof. unfold Rdiv. ring. Qed.

Lemma rot_sub_x (a b c d : R) :
  cs * a - sn * b - (cs * c - sn * d) = cs * (a - c) - sn * (b - d).
Proof. ring. Qed.

Lemma rot_sub_y (a b c d : R) :
  sn * a + cs * b - (sn * c + cs * d) = sn * (a - c) + cs * (b - d).
Proof. ring. Qed.

Ltac rot_normalise :=
  unfold rotate, rotate_normal; cbn [get x0 x1 x2 x3 fst snd];
  rewrite ?rot_div_x, ?rot_div_y;
  rewrite ?rot_avg_x, ?rot_avg_y;
  rewrite ?rot_sub_x, ?rot_sub_y;
  rewrite ?rotate_dot, ?rotate_cross.

Local Abbreviation rotated_locals fi_init ul ur n :=
  (locals g fi_init (rotate theta ul) (rotate theta ur) (rotate_normal theta n)).

Ltac scalar_field :=
  unfold locals; cbv zeta;
  cbn [vni vnj ci cj vnij cij eps0 eps2 eps3 l0 l1 l2 l3 dw];
  rot_normalise; reflexivity.

(** Every scalar local of the rotated problem is the one of the original
    problem. *)
Lemma l0_rotate (fi_init ul ur : Vec4) (n : Normal) :
  l0 (rotated_locals fi_init ul ur n) = l0 (locals g fi_init ul ur n).
Proof. scalar_field. Qed.

Lemma l1_rotate (fi_init ul ur : Vec4) (n : Normal) :
  l1 (rotated_locals fi_init ul ur n) = l1 (locals g fi_init ul ur n).
Proof. scalar_field. Qed.

Lemma l2_rotate (fi_init ul ur : Vec4) (n : Normal) :
  l2 (rotated_locals fi_init ul ur n) = l2 (locals g fi_init ul ur n).
Proof. scalar_field. Qed.

Lemma l3_rotate (fi_init ul ur : Vec4) (n : Normal) :
  l3 (rotated_locals fi_init ul ur n) = l3 (locals g fi_init ul ur n).
Proof. scalar_field. Qed.

Lemma dw_rotate (fi_init ul ur : Vec4) (n : Normal) :
  dw (rotated_locals fi_init ul ur n) = dw (locals g fi_init ul ur n).
Proof. scalar_field. Qed.

Ltac vector_field :=
  unfold locals; cbv zeta; cbn [r0 r1 r2 r3 fj];
  rot_normalise; apply vec4_eq; unfold Rdiv; ring.

(** The right eigenvectors are equivariant. *)
Lemma r0_rotate (fi_init ul ur : Vec4) (n : Normal) :
  r0 (rotated_locals fi_init ul ur n) = rotate theta (r0 (locals g fi_init ul ur n)).
Proof. vector_field. Qed.

Lemma r1_rotate (fi_init ul ur : Vec4) (n : Normal) :
  r1 (rotated_locals fi_init ul ur n) = rotate theta (r1 (locals g fi_init ul ur n)).
Proof. vector_field. Qed.

Lemma r2_rotate (fi_init ul ur : Vec4) (n : Normal) :
  r2 (rotated_locals fi_init ul ur n) = rotate theta (r2 (locals g fi_init ul ur n)).
Proof. vector_field. Qed.

Lemma r3_rotate (fi_init ul ur : Vec4) (n : Normal) :
  r3 (rotated_locals fi_init ul ur n) = rotate theta (r3 (locals g fi_init ul ur n)).
Proof. vector_field. Qed.

(** The dissipation vector of the rotated problem is the rotated
    dissipation vector. *)
Lemma dissipation_rotate (fi_init ul ur : Vec4) (n : Normal) :
  let w := locals g fi_init ul ur n in
  let w' := rotated_locals fi_init ul ur n in
  mkVec4 (dissipation w' 0) (dissipation w' 1) (dissipation w' 2) (dissipation w' 3)
  = rotate theta
      (mkVec4 (dissipation w 0) (dissipation w 1) (dissipation w 2) (dissipation w 3)).
Proof.
  cbv zeta. unfold dissipation.
  rewrite l0_rotate, l1_rotate, l2_rotate, l3_rotate, dw_rotate,
    r0_rotate, r1_rotate, r2_rotate, r3_rotate.
  set (w := locals g fi_init ul ur n).
  unfold rotate. cbn [get x0 x1 x2 x3].
  apply vec4_eq; ring.
Qed.

(** The design formula of the Roe flux is rotationally invariant. *)
Theorem roe_design_rotation_invariant (ul ur : Vec4) (n : Normal) :
  RoeSpec.flux g ul ur n =
  rotate (- theta)
    (RoeSpec.flux g (rotate theta ul) (rotate theta ur) (rotate_normal theta n)).
Proof.
  assert (H : RoeSpec.flux g (rotate theta ul) (rotate theta ur) (rotate_normal theta n)
              = rotate theta (RoeSpec.flux g ul ur n)).
  { unfold RoeSpec.flux. cbv zeta. rewrite !euler_flux_rotate.
    pose proof (dissipation_rotate zeros ul ur n) as D. cbv zeta in D.
    injection D as -> -> -> ->.
    unfold rotate. cbn [get x0 x1 x2 x3]. apply vec4_eq; ring. }
  rewrite H. symmetry. apply rotate_back.
Qed.

End RoeRotation.

(** ** Boundary states *)

Section BoundaryTheory.

Import EulerFV.

Variable cfg : Config.

(** C8. Boundary reflection.  At a face whose marker is the solid-wall
    marker the boundary treatment returns a ghost state whose normal velocity
    is the negation of the interior one, with the same tangential velocity,
    density and total energy. *)
Theorem C8_wall_reflects_normal_velocity (marker : Z) (ins : Vec4) (n : Normal) :
  marker = solid_wall_id cfg -> unit_normal n -> 0 < get ins 0 ->
  normal_velocity ins n <> 0 ->
  exists bs : Vec4,
    compute_boundary_state cfg marker ins n = Ok bs /\
    normal_velocity bs n = - normal_velocity ins n /\
    tangential_velocity bs n = tangential_velocity ins n /\
    get bs 0 = get ins 0 /\
    get bs 3 = get ins 3.
Proof.
  intros Hm Hn Hrho _. unfold compute_boundary_state. cbv zeta.
  rewrite decide_True by exact Hm.
  eexists. split; [reflexivity |].
  unfold normal_velocity, tangential_velocity, unit_normal in *.
  destruct ins as [rho mx my E]. destruct n as [nx ny].
  cbn [get x0 x1 x2 x3 fst snd] in *.
  repeat split.
  - transitivity (((mx * nx + my * ny) / rho) * (1 - 2 * (nx * nx + ny * ny)));
      [field; lra | rewrite Hn; field; lra].
  - field. lra.
Qed.

End BoundaryTheory.

(** ** Residual assembly *)

Section VectorAlgebra.

Lemma vadd_comm (a b : Vec4) : vadd a b = vadd b a.
Proof. unfold vadd. apply vec4_eq; ring. Qed.

Lemma vadd_assoc (a b c : Vec4) : vadd a (vadd b c) = vadd (vadd a b) c.
Proof. unfold vadd. cbn [x0 x1 x2 x3]. apply vec4_eq; ring. Qed.

Lemma vsub_as_vadd (a b : Vec4) : vsub a b = vadd a (vopp b).
Proof. unfold vsub, vadd, vopp. cbn [x0 x1 x2 x3]. apply vec4_eq; ring. Qed.

Lemma vadd_vopp (a : Vec4) : vadd a (vopp a) = zeros.
Proof. unfold vadd, vopp, zeros. cbn [x0 x1 x2 x3]. apply vec4_eq; ring. Qed.

Lemma vsub_zeros_r (a : Vec4) : vsub a zeros = a.
Proof. destruct a. unfold vsub, zeros. cbn [x0 x1 x2 x3]. apply vec4_eq; ring. Qed.

Lemma vsub_diag (a : Vec4) : vsub a a = zeros.
Proof. unfold vsub, zeros. apply vec4_eq; ring. Qed.

Lemma vsub_zeros_l (a : Vec4) : vsub zeros a = vopp a.
Proof. unfold vsub, vopp, zeros. cbn [x0 x1 x2 x3]. apply vec4_eq; ring. Qed.

End VectorAlgebra.

Section AssemblyTheory.

Import EulerFV.

Variable inviflux : Vec4 -> Vec4 -> Normal -> Vec4.
Variable reconstruct : (nat -> Vec4) -> nat -> Face -> Vec4.
Variable cfg : Config.
Variable order : nat.

Local Abbreviation face_flux := (face_flux inviflux reconstruct cfg order).
Local Abbreviation sweep := (sweep inviflux reconstruct cfg order).
Local Abbreviation compute_residual := (compute_residual inviflux reconstruct cfg order).

(** A successful sweep is the scattering of the per-face fluxes. *)
Lemma sweep_scatter_all (u : nat -> Vec4) (fs : list Face) :
  forall residual res,
    sweep u fs residual = Ok res ->
    exists fluxes,
      Forall2 (fun f flux => face_flux u f = Ok flux) fs fluxes /\
      res = scatter_all fs fluxes residual.
Proof.
  induction fs as [| f fs IH]; intros residual res H; cbn [EulerFV.sweep] in H.
  - injection H as <-. exists []. split; [constructor | reflexivity].
  - destruct (face_flux u f) as [flux | e] eqn:Hf; [| discriminate].
    destruct (IH _ _ H) as (fluxes & HF & ->).
    exists (flux :: fluxes). split; [constructor; assumption | reflexivity].
Qed.

Lemma sweep_of_fluxes (u : nat -> Vec4) (fs : list Face) (fluxes : list Vec4) :
  Forall2 (fun f flux => face_flux u f = Ok flux) fs fluxes ->
  forall residual, sweep u fs residual = Ok (scatter_all fs fluxes residual).
Proof.
  induction 1 as [| f flux fs fluxes Hf _ IH]; intros residual; cbn [EulerFV.sweep scatter_all].
  - reflexivity.
  - rewrite Hf. apply IH.
Qed.

Lemma length_scatter (f : Face) (flux : Vec4) (residual : list Vec4) :
  length (scatter f flux residual) = length residual.
Proof.
  unfold scatter. cbv zeta. destruct (side f); rewrite ?length_alter; reflexivity.
Qed.

Lemma length_scatter_all (fs : list Face) :
  forall fluxes residual, length (scatter_all fs fluxes residual) = length residual.
Proof.
  induction fs as [| f fs IH]; intros [| flux fluxes] residual; cbn [scatter_all];
    try reflexivity.
  rewrite IH. apply length_scatter.
Qed.

Lemma lookup_alter_cases (h : Vec4 -> Vec4) (i c : nat) (l : list Vec4) :
  alter h i l !! c = if decide (i = c) then h <$> l !! c else l !! c.
Proof.
  rewrite list_lookup_alter. destruct (decide (i = c)) as [-> | Hne]; reflexivity.
Qed.

(** One face changes the entry of cell [c] by its contribution. *)
Lemma lookup_scatter (f : Face) (flux : Vec4) (residual : list Vec4) (c : nat) :
  scatter f flux residual !! c =
  (fun r => vadd r (contribution f flux c)) <$> residual !! c.
Proof.
  unfold scatter, contribution. cbv zeta.
  destruct (side f) as [j | marker]; rewrite !lookup_alter_cases.
  - destruct (decide (j = c)), (decide (owner f = c));
      destruct (residual !! c) as [r |]; cbn [fmap option_fmap option_map]; try reflexivity;
      f_equal; unfold vsub, vadd, zeros; cbn [x0 x1 x2 x3]; destruct r; cbn [x0 x1 x2 x3];
      apply vec4_eq; ring.
  - destruct (decide (owner f = c));
      destruct (residual !! c) as [r |]; cbn [fmap option_fmap option_map]; try reflexivity;
      f_equal; unfold vsub, vadd, zeros; cbn [x0 x1 x2 x3]; destruct r; cbn [x0 x1 x2 x3];
      apply vec4_eq; ring.
Qed.

Lemma lookup_scatter_all (fs : list Face) (c : nat) :
  forall fluxes residual,
    scatter_all fs fluxes residual !! c =
    (fun r => vadd r (net fs fluxes c)) <$> residual !! c.
Proof.
  induction fs as [| f fs IH]; intros [| flux fluxes] residual; cbn [scatter_all net].
  1-3: destruct (residual !! c) as [r |]; cbn [fmap option_fmap option_map];
       [rewrite vadd_zeros_r |]; reflexivity.
  rewrite IH, lookup_scatter.
  destruct (residual !! c) as [r |]; cbn [fmap option_fmap option_map]; [| reflexivity].
  rewrite vadd_assoc. reflexivity.
Qed.


Lemma vsum_alter_add (v : Vec4) (l : list Vec4) :
  forall i, (i < length l)%nat ->
    vsum (alter (fun r => vadd r v) i l) = vadd (vsum l) v.
Proof.
  induction l as [| a l IH]; intros i Hi; cbn [length] in Hi; [lia |].
  destruct i as [| i]; cbn [alter list_alter vsum foldr].
  - fold (vsum l). rewrite <- !vadd_assoc, (vadd_comm v). reflexivity.
  - fold (vsum l). fold (vsum (alter (fun r => vadd r v) i l)).
    rewrite (IH i) by lia. apply vadd_assoc.
Qed.

Lemma vsum_alter_sub (v : Vec4) (l : list Vec4) :
  forall i, (i < length l)%nat ->
    vsum (alter (fun r => vsub r v) i l) = vadd (vsum l) (vopp v).
Proof.
  intros i Hi. rewrite <- (vsum_alter_add (vopp v) l i Hi). reflexivity.
Qed.

Lemma vsum_zeroed (l : list Vec4) : vsum (map (fun _ => zeros) l) = zeros.
Proof.
  induction l as [| a l IH]; cbn [map vsum foldr]; [reflexivity |].
  fold (vsum (map (fun _ : Vec4 => zeros) l)). rewrite IH. apply vadd_zeros_l.
Qed.

(** Scattering one face changes the total over all cells by the flux of a
    boundary face and by nothing for an interior face. *)
Lemma vsum_scatter (m : Mesh) (f : Face) (flux : Vec4) (residual : list Vec4) :
  face_in_range m f -> length residual = nelem m ->
  vsum (scatter f flux residual) =
  vadd (vsum residual) (match side f with Neighbor _ => zeros | Boundary _ => flux end).
Proof.
  unfold face_in_range, scatter. cbv zeta. intros [Ho Hj] Hlen.
  destruct (side f) as [j | marker].
  - rewrite vsum_alter_sub by (rewrite length_alter; lia).
    rewrite vsum_alter_add by lia.
    rewrite <- vadd_assoc, vadd_vopp. reflexivity.
  - apply vsum_alter_add. lia.
Qed.

Lemma vsum_scatter_all (m : Mesh) (fs : list Face) :
  Forall (face_in_range m) fs ->
  forall fluxes residual,
    length residual = nelem m ->
    vsum (scatter_all fs fluxes residual) =
    vadd (vsum residual) (boundary_total fs fluxes).
Proof.
  induction 1 as [| f fs Hf _ IH]; intros [| flux fluxes] residual Hlen;
    cbn [scatter_all boundary_total]; try (rewrite vadd_zeros_r; reflexivity).
  rewrite IH by (rewrite length_scatter; exact Hlen).
  rewrite (vsum_scatter m f flux residual Hf Hlen).
  destruct (side f); rewrite <- vadd_assoc; [rewrite vadd_zeros_l |]; reflexivity.
Qed.

(** An interior face gives its flux to the owner and takes it from the
    neighbour; a boundary face gives its flux to the owner only. *)
Lemma contribution_interior (f : Face) (flux : Vec4) (j c : nat) :
  side f = Neighbor j -> owner f <> j ->
  contribution f flux (owner f) = flux /\
  contribution f flux j = vopp flux /\
  (c <> owner f -> c <> j -> contribution f flux c = zeros).
Proof.
  intros Hs Hne. unfold contribution. rewrite Hs. repeat split.
  - rewrite decide_True by reflexivity. rewrite decide_False by congruence.
    apply vsub_zeros_r.
  - rewrite decide_False by exact Hne. rewrite decide_True by reflexivity.
    apply vsub_zeros_l.
  - intros H1 H2. rewrite !decide_False by congruence. apply vsub_diag.
Qed.

Lemma contribution_boundary (f : Face) (flux : Vec4) (marker : Z) (c : nat) :
  side f = Boundary marker ->
  contribution f flux (owner f) = flux /\
  (c <> owner f -> contribution f flux c = zeros).
Proof.
  intros Hs. unfold contribution. rewrite Hs. split.
  - rewrite decide_True by reflexivity. apply vsub_zeros_r.
  - intros H1. rewrite decide_False by congruence. apply vsub_diag.
Qed.

(** The sweep succeeds when every boundary marker is one of the two
    configured ones. *)
Lemma sweep_total (u : nat -> Vec4) (fs : list Face) :
  Forall (fun f => match side f with
                   | Neighbor _ => True
                   | Boundary k => k = solid_wall_id cfg \/ k = inflow_outflow_id cfg
                   end) fs ->
  forall residual, exists res, sweep u fs residual = Ok res.
Proof.
  induction 1 as [| f fs Hf _ IH]; intros residual; cbn [EulerFV.sweep].
  - eexists. reflexivity.
  - assert (Hflux : exists flux, face_flux u f = Ok flux).
    { unfold EulerFV.face_flux. cbv zeta. destruct (side f) as [j | k].
      - eexists. reflexivity.
      - unfold compute_boundary_state. cbv zeta.
        destruct (decide (k = solid_wall_id cfg)); [eexists; reflexivity |].
        destruct (decide (k = inflow_outflow_id cfg)); [eexists; reflexivity |].
        destruct Hf; contradiction. }
    destruct Hflux as [flux ->]. apply IH.
Qed.

(** C7. Conservation of the residual assembly.  After a successful
    sweep over a mesh whose faces refer to real cells, the residual of every
    cell is the sum of the contributions of the faces: each interior face
    adds its area-scaled flux to its owner and subtracts the same vector
    from its neighbour, each boundary face adds its flux to its owner only.
    The total of the residual over all cells is therefore the sum of the
    boundary-face fluxes alone: the interior faces create nothing.  The
    buffer is zeroed first, so any previous content of the same size gives
    the same result. *)
Theorem C7_residual_assembly_conserves (m : Mesh) (u : nat -> Vec4)
    (residual res : list Vec4) :
  well_formed m -> length residual = nelem m ->
  compute_residual m u residual = Ok res ->
  exists fluxes : list Vec4,
    Forall2 (fun f flux => face_flux u f = Ok flux) (faces m) fluxes /\
    length res = nelem m /\
    (forall c, (c < nelem m)%nat -> res !! c = Some (net (faces m) fluxes c)) /\
    (forall f flux j, side f = Neighbor j -> owner f <> j ->
       contribution f flux (owner f) = flux /\
       contribution f flux j = vopp flux /\
       vadd (contribution f flux (owner f)) (contribution f flux j) = zeros) /\
    (forall f flux k c, side f = Boundary k -> c <> owner f ->
       contribution f flux (owner f) = flux /\ contribution f flux c = zeros) /\
    vsum res = boundary_total (faces m) fluxes /\
    (forall previous : list Vec4, length previous = nelem m ->
       compute_residual m u previous = Ok res).
Proof.
  intros Hwf Hlen Hres. unfold EulerFV.compute_residual in Hres. cbv zeta in Hres.
  destruct (sweep_scatter_all u (faces m) _ _ Hres) as (fluxes & HF & ->).
  exists fluxes. split; [exact HF |].
  split; [rewrite length_scatter_all, length_map; exact Hlen |].
  split.
  { intros c Hc. rewrite lookup_scatter_all, list_lookup_fmap.
    destruct (residual !! c) as [r |] eqn:Hr.
    - cbn [fmap option_fmap option_map]. rewrite vadd_zeros_l. reflexivity.
    - apply lookup_ge_None in Hr. lia. }
  split.
  { intros f flux j Hs Hne.
    destruct (contribution_interior f flux j 0%nat Hs Hne) as (H1 & H2 & _).
    repeat split; try assumption. rewrite H1, H2. apply vadd_vopp. }
  split.
  { intros f flux k c Hs Hc.
    destruct (contribution_boundary f flux k c Hs) as (H1 & H2). split; auto. }
  split.
  { rewrite (vsum_scatter_all m (faces m) Hwf) by (rewrite length_map; exact Hlen).
    rewrite vsum_zeroed. apply vadd_zeros_l. }
  intros previous Hprev. unfold EulerFV.compute_residual. cbv zeta.
  rewrite (sweep_of_fluxes u (faces m) fluxes HF). f_equal. f_equal.
  clear - Hlen Hprev. rewrite <- Hprev in Hlen. clear Hprev.
  revert previous Hlen. induction residual as [| a l IH]; intros [| b l'] H;
    cbn [length map] in *; try lia; try reflexivity.
  f_equal. apply IH. lia.
Qed.

End AssemblyTheory.

(** ** The schemes on the sample states *)

Section Samples.

Import EulerFV.

Lemma gamma_air_gt_1 : 1 < gamma_air.
Proof. unfold gamma_air. lra. Defined.

Lemma gamma_air_eq : gamma_air = 7 / 5.
Proof. unfold gamma_air. lra. Defined.

(** Any state of unit density and pressure 5/7 is valid and has sound
    speed 1 in air. *)
Lemma sample_valid (mx my E : R) :
  E = 25 / 14 + (mx * mx + my * my) / 2 ->
  valid_state gamma_air (mkVec4 1 mx my E).
Proof.
  intros ->. unfold valid_state, pressure. rewrite gamma_air_eq.
  cbn [get x0 x1 x2 x3 pow]. lits. split; [lra |].
  replace ((7 / 5 - 1) * (25 / 14 + (mx * mx + my * my) / 2
                          - / 2 * (mx * (mx * 1) + my * (my * 1)) / 1))
    with (5 / 7) by field.
  lra.
Defined.

Lemma sample_sound_speed (mx my E : R) :
  E = 25 / 14 + (mx * mx + my * my) / 2 ->
  sound_speed gamma_air (mkVec4 1 mx my E) = 1.
Proof.
  intros ->. unfold sound_speed, pressure. rewrite gamma_air_eq.
  cbn [get x0 x1 x2 x3 pow]. lits.
  transitivity (sqrt 1); [f_equal; field | apply sqrt_1].
Defined.

Lemma sample_normal_mach (mx my E : R) (n : Normal) :
  E = 25 / 14 + (mx * mx + my * my) / 2 ->
  normal_mach gamma_air (mkVec4 1 mx my E) n = mx * fst n + my * snd n.
Proof.
  intros HE. unfold normal_mach. rewrite (sample_sound_speed mx my E HE).
  unfold normal_velocity. cbn [get x0 x1 x2 x3]. lra.
Defined.

Ltac sample_energy := cbn [get x0 x1 x2 x3]; lra.

Lemma u_rest_valid : valid_state gamma_air u_rest.
Proof. apply sample_valid. lra. Defined.
Lemma u_subsonic_valid : valid_state gamma_air u_subsonic.
Proof. apply sample_valid. lra. Defined.
Lemma u_sonic_valid : valid_state gamma_air u_sonic.
Proof. apply sample_valid. lra. Defined.
Lemma u_supersonic_valid : valid_state gamma_air u_supersonic.
Proof. apply sample_valid. lra. Defined.
Lemma u_expand_left_valid : valid_state gamma_air u_expand_left.
Proof. apply sample_valid. lra. Defined.
Lemma u_expand_right_valid : valid_state gamma_air u_expand_right.
Proof. apply sample_valid. lra. Defined.

Lemma e_y_unit : unit_normal e_y.
Proof. unfold unit_normal, e_y. cbn [fst snd]. lra. Defined.

(** The sonic state on the left and the Mach 2 state on the right, seen
    along the normal and against it. *)
Lemma C3_vanleer_supersonic_reduction_witness :
  (valid_state gamma_air u_sonic /\ valid_state gamma_air u_supersonic) /\
  (1 <= normal_mach gamma_air u_sonic e_y /\
   1 <= normal_mach gamma_air u_supersonic e_y /\
   VanLeerFlux.fiplus gamma_air u_sonic e_y = euler_flux gamma_air u_sonic e_y /\
   VanLeerFlux.fjminus gamma_air u_supersonic e_y = zeros /\
   VanLeerFlux.get_flux gamma_air u_sonic u_supersonic e_y
   = euler_flux gamma_air u_sonic e_y) /\
  (normal_mach gamma_air u_sonic (nopp e_y) <= -1 /\
   normal_mach gamma_air u_supersonic (nopp e_y) <= -1 /\
   VanLeerFlux.fiplus gamma_air u_sonic (nopp e_y) = zeros /\
   VanLeerFlux.fjminus gamma_air u_supersonic (nopp e_y)
   = euler_flux gamma_air u_supersonic (nopp e_y) /\
   VanLeerFlux.get_flux gamma_air u_sonic u_supersonic (nopp e_y)
   = euler_flux gamma_air u_supersonic (nopp e_y)).
Proof.
  assert (M1 : normal_mach gamma_air u_sonic e_y = 1).
  { unfold u_sonic, e_y. rewrite sample_normal_mach by lra. cbn [fst snd]. lra. }
  assert (M2 : normal_mach gamma_air u_supersonic e_y = 2).
  { unfold u_supersonic, e_y. rewrite sample_normal_mach by lra. cbn [fst snd]. lra. }
  assert (M3 : normal_mach gamma_air u_sonic (nopp e_y) = -1).
  { unfold u_sonic, e_y, nopp. rewrite sample_normal_mach by lra. cbn [fst snd]. lra. }
  assert (M4 : normal_mach gamma_air u_supersonic (nopp e_y) = -2).
  { unfold u_supersonic, e_y, nopp. rewrite sample_normal_mach by lra. cbn [fst snd]. lra. }
  pose proof (C3_vanleer_supersonic_reduction gamma_air gamma_air_gt_1
                u_sonic u_supersonic e_y u_sonic_valid u_supersonic_valid)
    as (A1 & _ & _ & A4 & A5 & _).
  pose proof (C3_vanleer_supersonic_reduction gamma_air gamma_air_gt_1
                u_sonic u_supersonic (nopp e_y) u_sonic_valid u_supersonic_valid)
    as (_ & B2 & B3 & _ & _ & B6).
  split; [split; [exact u_sonic_valid | exact u_supersonic_valid] |].
  split.
  - repeat split; [lra | lra | apply A1; lra | apply A4; lra | apply A5; lra].
  - repeat split; [lra | lra | apply B2; lra | apply B3; lra | apply B6; lra].
Defined.

(** The Mach 1/2 state. *)
Lemma C4_vanleer_subsonic_blending_witness :
  valid_state gamma_air u_subsonic /\
  -1 <= normal_mach gamma_air u_subsonic e_y <= 1 /\
  VanLeerFlux.fiplus gamma_air u_subsonic e_y
  = VanLeerSpec.blend_left gamma_air u_subsonic e_y /\
  VanLeerFlux.fjminus gamma_air u_subsonic e_y
  = VanLeerSpec.blend_right gamma_air u_subsonic e_y /\
  VanLeerSpec.blend_right gamma_air u_subsonic e_y
  = vopp (VanLeerSpec.blend_left gamma_air u_subsonic (nopp e_y)).
Proof.
  assert (M : normal_mach gamma_air u_subsonic e_y = 1 / 2).
  { unfold u_subsonic, e_y. rewrite sample_normal_mach by lra. cbn [fst snd]. lra. }
  split; [exact u_subsonic_valid |].
  split; [lra |].
  apply (C4_vanleer_subsonic_blending gamma_air u_subsonic e_y u_subsonic_valid). lra.
Defined.

(** A subsonic left state against a supersonic right state. *)
Lemma C10_vanleer_skew_symmetric_witness :
  valid_state gamma_air u_subsonic /\ valid_state gamma_air u_supersonic /\
  unit_normal e_y /\
  VanLeerFlux.get_flux gamma_air u_supersonic u_subsonic (nopp e_y)
  = vopp (VanLeerFlux.get_flux gamma_air u_subsonic u_supersonic e_y).
Proof.
  split; [exact u_subsonic_valid |].
  split; [exact u_supersonic_valid |].
  split; [exact e_y_unit |].
  exact (C10_vanleer_skew_symmetric gamma_air u_subsonic u_supersonic e_y
           u_subsonic_valid u_supersonic_valid e_y_unit).
Defined.


(** *** A transonic expansion through the Roe scheme *)

Lemma sqrt_unit_ratio : sqrt (1 / 1) = 1.
Proof. replace (1 / 1) with 1 by lra. apply sqrt_1. Qed.

Lemma expansion_vnij (fi_init : Vec4) :
  RoeFlux.vnij (RoeFlux.locals gamma_air fi_init u_expand_left u_expand_right e_y) = 1 / 2.
Proof.
  unfold RoeFlux.locals. cbv zeta. cbn [RoeFlux.vnij].
  unfold u_expand_left, u_expand_right, e_y. cbn [get x0 x1 x2 x3 fst snd].
  rewrite sqrt_unit_ratio. lits. field.
Qed.

Lemma expansion_cij (fi_init : Vec4) :
  RoeFlux.cij (RoeFlux.locals gamma_air fi_init u_expand_left u_expand_right e_y) = 3 / 2.
Proof.
  unfold RoeFlux.locals. cbv zeta. cbn [RoeFlux.cij].
  unfold u_expand_left, u_expand_right, e_y. cbn [get x0 x1 x2 x3 fst snd].
  rewrite sqrt_unit_ratio, gamma_air_eq. lits.
  rewrite <- (sqrt_square (3 / 2)) by lra. f_equal. field.
Qed.


Lemma Rmax_eval (a b c : R) : a <= c -> b <= c -> (a = c \/ b = c) -> Rmax a b = c.
Proof. intros Ha Hb Hc. unfold Rmax. destruct (Rle_dec a b); lra. Qed.

(** On the expansion the acoustic eigenvalue vn_avg - c_avg = -1 lies
    between the characteristic speeds -3 and 2 of the two sides; eps is 3
    and the eigenvalue is replaced by it. *)
Lemma C5_harten_hyman_entropy_fix_witness :
  valid_state gamma_air u_expand_left /\ valid_state gamma_air u_expand_right /\
  let w := RoeFlux.locals gamma_air zeros u_expand_left u_expand_right e_y in
  RoeFlux.vni w - RoeFlux.ci w = -3 /\
  RoeFlux.vnj w - RoeFlux.cj w = 2 /\
  RoeFlux.vnij w - RoeFlux.cij w = -1 /\
  RoeFlux.eps3 w = 3 /\
  RoeFlux.l3 w = 3 /\
  RoeFlux.eps3 w <= Rabs (RoeFlux.l3 w).
Proof.
  split; [exact u_expand_left_valid |].
  split; [exact u_expand_right_valid |].
  pose proof (C5_harten_hyman_entropy_fix gamma_air zeros u_expand_left u_expand_right e_y
                u_expand_left_valid u_expand_right_valid) as H.
  cbv zeta in *.
  destruct H as ((Hvni & Hci & Hvnj & Hcj) & (_ & _ & E3) & (_ & _ & _ & L3) & (_ & _ & _ & F3)).
  assert (Vl : normal_velocity u_expand_left e_y = -2).
  { unfold normal_velocity, u_expand_left, e_y. cbn [get x0 x1 x2 x3 fst snd]. lra. }
  assert (Vr : normal_velocity u_expand_right e_y = 3).
  { unfold normal_velocity, u_expand_right, e_y. cbn [get x0 x1 x2 x3 fst snd]. lra. }
  assert (Cl : sound_speed gamma_air u_expand_left = 1).
  { apply sample_sound_speed. lra. }
  assert (Cr : sound_speed gamma_air u_expand_right = 1).
  { apply sample_sound_speed. lra. }
  rewrite Hvni, Hci, Hvnj, Hcj, expansion_vnij, expansion_cij, Vl, Vr, Cl, Cr in E3.
  assert (E3' : RoeFlux.eps3 (RoeFlux.locals gamma_air zeros u_expand_left u_expand_right e_y) = 3).
  { rewrite E3. apply Rmax_eval; [lra | | right].
    - right. apply Rmax_eval; lra.
    - apply Rmax_eval; lra. }
  rewrite expansion_vnij, expansion_cij, E3' in L3.
  assert (L3' : RoeFlux.l3 (RoeFlux.locals gamma_air zeros u_expand_left u_expand_right e_y) = 3).
  { rewrite L3. destruct (Rlt_dec (Rabs (1 / 2 - 3 / 2)) 3) as [_ | Hn]; [reflexivity |].
    exfalso. apply Hn. rewrite Rabs_left; lra. }
  rewrite Hvni, Hci, Hvnj, Hcj, expansion_vnij, expansion_cij, Vl, Vr, Cl, Cr.
  repeat split; try lra; assumption.
Defined.


(** *** The uninitialised left flux of the Roe scheme *)

Lemma sample_euler_flux (mx my E : R) (n : Normal) :
  E = 25 / 14 + (mx * mx + my * my) / 2 ->
  euler_flux gamma_air (mkVec4 1 mx my E) n =
  let vn := mx * fst n + my * snd n in
  mkVec4 vn (vn * mx + 5 / 7 * fst n) (vn * my + 5 / 7 * snd n) (vn * (E + 5 / 7)).
Proof.
  intros ->. unfold euler_flux, pressure, normal_velocity. rewrite gamma_air_eq.
  cbv zeta. cbn [get x0 x1 x2 x3 pow]. lits. apply vec4_eq; field.
Qed.

Lemma expansion_left_flux :
  euler_flux gamma_air u_expand_left e_y = mkVec4 (-2) 0 (33 / 7) (-9).
Proof.
  unfold u_expand_left, e_y. rewrite sample_euler_flux by lra.
  cbv zeta. cbn [fst snd]. apply vec4_eq; lra.
Qed.

Lemma sonic_flux : euler_flux gamma_air u_sonic e_y = mkVec4 1 0 (12 / 7) 3.
Proof.
  unfold u_sonic, e_y. rewrite sample_euler_flux by lra.
  cbv zeta. cbn [fst snd]. apply vec4_eq; lra.
Qed.

Lemma sonic_rotated : rotate (PI / 2) u_sonic = mkVec4 1 (-1) 0 (16 / 7).
Proof.
  unfold rotate, u_sonic. cbn [get x0 x1 x2 x3]. rewrite cos_PI2, sin_PI2.
  apply vec4_eq; lra.
Qed.

Lemma e_y_rotated : rotate_normal (PI / 2) e_y = (-1, 0).
Proof.
  unfold rotate_normal, e_y. cbn [fst snd]. rewrite cos_PI2, sin_PI2. f_equal; lra.
Qed.

Lemma sonic_rotated_flux :
  euler_flux gamma_air (mkVec4 1 (-1) 0 (16 / 7)) (-1, 0) = mkVec4 1 (- (12 / 7)) 0 3.
Proof.
  rewrite sample_euler_flux by lra. cbv zeta. cbn [fst snd]. apply vec4_eq; lra.
Qed.

Lemma roe_sonic_direct :
  RoeFlux.get_flux gamma_air zeros u_sonic u_sonic e_y = mkVec4 1 0 (6 / 7) (3 / 2).
Proof.
  assert (Hrho : 0 < get u_sonic 0) by (unfold u_sonic; cbn [get x0]; lra).
  rewrite (roe_equal_states gamma_air zeros u_sonic e_y Hrho). cbv zeta.
  rewrite sonic_flux. unfold zeros. cbn [get x0 x1 x2 x3]. apply vec4_eq; lra.
Qed.

Lemma roe_sonic_rotated_back :
  rotate (- (PI / 2))
    (RoeFlux.get_flux gamma_air zeros (rotate (PI / 2) u_sonic) (rotate (PI / 2) u_sonic)
                      (rotate_normal (PI / 2) e_y))
  = mkVec4 1 0 (12 / 7) (3 / 2).
Proof.
  rewrite sonic_rotated, e_y_rotated.
  assert (Hrho : 0 < get (mkVec4 1 (-1) 0 (16 / 7)) 0) by (cbn [get x0]; lra).
  rewrite (roe_equal_states gamma_air zeros _ (-1, 0) Hrho). cbv zeta.
  rewrite sonic_rotated_flux. unfold rotate, zeros. cbn [get x0 x1 x2 x3].
  rewrite cos_neg, sin_neg, cos_PI2, sin_PI2. apply vec4_eq; lra.
Qed.

(** C1 (failing input).  Left state (1, 0, -2, 53/14), right state
    (1, 0, 3, 44/7), normal (0, 1), with zeros in the uninitialised array
    [fi]: the density and x-momentum entries of the returned flux follow the
    design formula, the y-momentum entry is short of it by 33/14 and the
    energy entry exceeds it by 9/2, one half of the missing left flux
    entries 33/7 and -9.  Whatever the array holds, the returned flux is the
    design formula only if [fi[2]] and [fi[3]] happen to hold 33/7 and -9. *)
Theorem C1_roe_left_flux_uninitialised :
  let code := RoeFlux.get_flux gamma_air zeros u_expand_left u_expand_right e_y in
  let design := RoeSpec.flux gamma_air u_expand_left u_expand_right e_y in
  get code 0 = get design 0 /\
  get code 1 = get design 1 /\
  get code 2 - get design 2 = - (33 / 14) /\
  get code 3 - get design 3 = 9 / 2 /\
  code <> design /\
  (forall fi_init : Vec4,
     RoeFlux.get_flux gamma_air fi_init u_expand_left u_expand_right e_y = design <->
     get fi_init 2 = 33 / 7 /\ get fi_init 3 = -9).
Proof.
  cbv zeta.
  assert (Hl : 0 < get u_expand_left 0) by (unfold u_expand_left; cbn [get x0]; lra).
  assert (Hr : 0 < get u_expand_right 0) by (unfold u_expand_right; cbn [get x0]; lra).
  assert (Hall : forall fi_init : Vec4,
     RoeFlux.get_flux gamma_air fi_init u_expand_left u_expand_right e_y
     = RoeSpec.flux gamma_air u_expand_left u_expand_right e_y <->
     get fi_init 2 = 33 / 7 /\ get fi_init 3 = -9).
  { intros fi_init.
    rewrite (roe_get_flux_design_iff gamma_air fi_init _ _ e_y Hl Hr).
    rewrite expansion_left_flux. cbn [get x0 x1 x2 x3]. reflexivity. }
  split; [| split; [| split; [| split; [| split; [| exact Hall]]]]].
  all: rewrite (roe_get_flux_entries gamma_air zeros u_expand_left u_expand_right e_y Hl Hr).
  all: unfold RoeSpec.flux; cbv zeta; rewrite expansion_left_flux.
  all: cbn [get x0 x1 x2 x3 zeros]; try lra.
  intros H. injection H as H2 H3. lra.
Qed.

(** C2 (failing input).  State (1, 0, 1, 16/7) on both sides, normal
    (0, 1), zeros in the uninitialised array: the physical flux is
    (1, 0, 12/7, 3), the Van Leer scheme returns it, the Roe scheme returns
    (1, 0, 6/7, 3/2). *)
Theorem C2_roe_flux_not_consistent :
  euler_flux gamma_air u_sonic e_y = mkVec4 1 0 (12 / 7) 3 /\
  VanLeerFlux.get_flux gamma_air u_sonic u_sonic e_y = mkVec4 1 0 (12 / 7) 3 /\
  RoeFlux.get_flux gamma_air zeros u_sonic u_sonic e_y = mkVec4 1 0 (6 / 7) (3 / 2) /\
  RoeFlux.get_flux gamma_air zeros u_sonic u_sonic e_y <> euler_flux gamma_air u_sonic e_y.
Proof.
  pose proof roe_sonic_direct as Hroe.
  split; [exact sonic_flux |].
  split; [rewrite (vanleer_consistent gamma_air gamma_air_gt_1 u_sonic e_y u_sonic_valid);
          exact sonic_flux |].
  split; [exact Hroe |].
  rewrite Hroe, sonic_flux. intros H. injection H as H2 H3. lra.
Qed.

(** C9 (failing input).  State (1, 0, 1, 16/7) on both sides, normal
    (0, 1), rotation by a quarter turn, zeros in the uninitialised array in
    both calls: the Roe flux of the original problem is (1, 0, 6/7, 3/2),
    the Roe flux of the rotated problem rotated back is (1, 0, 12/7, 3/2). *)
Theorem C9_roe_flux_not_rotation_invariant :
  let theta := PI / 2 in
  let direct := RoeFlux.get_flux gamma_air zeros u_sonic u_sonic e_y in
  let rotated :=
    RoeFlux.get_flux gamma_air zeros (rotate theta u_sonic) (rotate theta u_sonic)
                     (rotate_normal theta e_y) in
  direct = mkVec4 1 0 (6 / 7) (3 / 2) /\
  rotate (- theta) rotated = mkVec4 1 0 (12 / 7) (3 / 2) /\
  direct <> rotate (- theta) rotated.
Proof.
  cbv zeta.
  pose proof roe_sonic_direct as Hdirect.
  pose proof roe_sonic_rotated_back as Hback.
  split; [exact Hdirect |]. split; [exact Hback |].
  rewrite Hdirect, Hback. intros H. injection H as H2. lra.
Qed.


(** *** Invalid states *)

(** C6 (counterexample).  A left state of zero density, and a right state
    of negative pressure: neither scheme reports a DomainError. *)
Lemma C6_invalid_state_not_rejected :
  get u_vacuum 0 <= 0 /\
  pressure gamma_air u_negative_pressure <= 0 /\
  VanLeerFlux_call gamma_air u_vacuum u_rest e_y <> Err DomainError /\
  RoeFlux_call gamma_air zeros u_vacuum u_rest e_y <> Err DomainError /\
  VanLeerFlux_call gamma_air u_rest u_negative_pressure e_y <> Err DomainError /\
  RoeFlux_call gamma_air zeros u_rest u_negative_pressure e_y <> Err DomainError.
Proof.
  split; [unfold u_vacuum; cbn [get x0]; lra |].
  split.
  { unfold pressure, u_negative_pressure, gamma_air. cbn [get x0 x1 x2 x3 pow]. lra. }
  unfold VanLeerFlux_call, RoeFlux_call. repeat split; discriminate.
Qed.

(** C6 (amended).  Neither scheme inspects its inputs or has a failure
    path: for all states and normals, valid or not, the call completes and
    hands back the flux vector its formulas produce. *)
Theorem C6_get_flux_has_no_failure_path (g : R) (fi_init ul ur : Vec4) (n : Normal) :
  VanLeerFlux_call g ul ur n = Ok (VanLeerFlux.get_flux g ul ur n) /\
  RoeFlux_call g fi_init ul ur n = Ok (RoeFlux.get_flux g fi_init ul ur n) /\
  VanLeerFlux_call g ul ur n <> Err DomainError /\
  RoeFlux_call g fi_init ul ur n <> Err DomainError.
Proof. unfold VanLeerFlux_call, RoeFlux_call. repeat split; discriminate. Qed.

(** *** The sample wall and mesh *)

(** The Mach 1/2 state meeting a wall across its path. *)
Lemma C8_wall_reflects_normal_velocity_witness :
  2%Z = solid_wall_id sample_config /\ unit_normal e_y /\ 0 < get u_subsonic 0 /\
  normal_velocity u_subsonic e_y <> 0 /\
  exists bs : Vec4,
    compute_boundary_state sample_config 2 u_subsonic e_y = Ok bs /\
    normal_velocity bs e_y = - normal_velocity u_subsonic e_y /\
    tangential_velocity bs e_y = tangential_velocity u_subsonic e_y /\
    get bs 0 = get u_subsonic 0 /\
    get bs 3 = get u_subsonic 3.
Proof.
  assert (H1 : 2%Z = solid_wall_id sample_config) by reflexivity.
  assert (H2 : 0 < get u_subsonic 0) by (unfold u_subsonic; cbn [get x0]; lra).
  assert (H3 : normal_velocity u_subsonic e_y <> 0).
  { unfold normal_velocity, u_subsonic, e_y. cbn [get x0 x1 x2 x3 fst snd]. lra. }
  split; [exact H1 |]. split; [exact e_y_unit |]. split; [exact H2 |].
  split; [exact H3 |].
  exact (C8_wall_reflects_normal_velocity sample_config 2 u_subsonic e_y
           H1 e_y_unit H2 H3).
Defined.

Lemma sample_mesh_well_formed : well_formed sample_mesh.
Proof.
  unfold well_formed, sample_mesh. cbn [faces].
  repeat constructor; cbn [owner side nelem]; lia.
Defined.

(** A first-order Van Leer sweep over the sample mesh, started on a
    buffer that still holds other values. *)
Lemma C7_residual_assembly_conserves_witness :
  well_formed sample_mesh /\
  length [u_sonic; u_supersonic] = nelem sample_mesh /\
  exists res : list Vec4,
    compute_residual (VanLeerFlux.get_flux gamma_air) no_reconstruction sample_config 1
      sample_mesh (fun _ => u_subsonic) [u_sonic; u_supersonic] = Ok res /\
    length res = 2%nat /\
    exists fluxes : list Vec4,
      vsum res = boundary_total (faces sample_mesh) fluxes.
Proof.
  split; [exact sample_mesh_well_formed |].
  split; [reflexivity |].
  destruct (sweep_total (VanLeerFlux.get_flux gamma_air) no_reconstruction sample_config 1
              (fun _ => u_subsonic) (faces sample_mesh)) with (residual := [zeros; zeros])
    as [res Hres].
  { unfold sample_mesh. cbn [faces]. repeat constructor. }
  exists res. split; [exact Hres |].
  destruct (C7_residual_assembly_conserves (VanLeerFlux.get_flux gamma_air) no_reconstruction
              sample_config 1 sample_mesh (fun _ => u_subsonic) [u_sonic; u_supersonic] res
              sample_mesh_well_formed eq_refl Hres)
    as (fluxes & _ & Hlen & _ & _ & _ & Hsum & _).
  split; [exact Hlen |]. exists fluxes. exact Hsum.
Defined.

End Samples.

(** * Further properties of the schemes *)

(** ** Van Leer: consistency, isometries, upwinding, walls *)

Section VanLeerMore.

Variable g : R.
Hypothesis g_gt_1 : 1 < g.

Import VanLeerFlux VanLeerSpec.

(** X1. Consistency of the Van Leer scheme: for a valid state on both
    sides, whatever its Mach number and whatever the normal, the returned
    flux is the physical flux of that state. *)
Theorem X1_vanleer_consistency (u : Vec4) (n : Normal) :
  valid_state g u -> get_flux g u u n = euler_flux g u n.
Proof. exact (vanleer_consistent g g_gt_1 u n). Qed.

(** X2. Rotational invariance of the Van Leer scheme: the flux of the
    problem rotated by any angle, with its momentum entries rotated back, is
    the flux of the original problem. *)
Theorem X2_vanleer_rotation (theta : R) (ul ur : Vec4) (n : Normal) :
  valid_state g ul -> valid_state g ur -> unit_normal n ->
  get_flux g ul ur n =
  rotate (- theta)
    (get_flux g (rotate theta ul) (rotate theta ur) (rotate_normal theta n)).
Proof. pose proof g_gt_1 as Hg. exact (vanleer_rotation_invariant g theta ul ur n). Qed.

Lemma pressure_reflect (u : Vec4) : pressure g (reflect u) = pressure g u.
Proof.
  unfold pressure, reflect. cbn [get x0 x1 x2 x3 pow]. f_equal. f_equal. f_equal. ring.
Qed.

Lemma sound_speed_reflect (u : Vec4) : sound_speed g (reflect u) = sound_speed g u.
Proof. unfold sound_speed. rewrite pressure_reflect. reflexivity. Qed.

Lemma normal_velocity_reflect (u : Vec4) (n : Normal) :
  normal_velocity (reflect u) (reflect_normal n) = normal_velocity u n.
Proof.
  unfold normal_velocity, reflect, reflect_normal. cbn [get x0 x1 x2 x3 fst snd].
  f_equal. ring.
Qed.

Lemma normal_mach_reflect (u : Vec4) (n : Normal) :
  normal_mach g (reflect u) (reflect_normal n) = normal_mach g u n.
Proof.
  unfold normal_mach. rewrite normal_velocity_reflect, sound_speed_reflect. reflexivity.
Qed.

Lemma euler_flux_reflect (u : Vec4) (n : Normal) :
  euler_flux g (reflect u) (reflect_normal n) = reflect (euler_flux g u n).
Proof.
  unfold euler_flux. cbv zeta. rewrite normal_velocity_reflect, pressure_reflect.
  unfold reflect, reflect_normal. cbn [get x0 x1 x2 x3 fst snd]. apply vec4_eq; ring.
Qed.

Lemma blend_left_reflect (u : Vec4) (n : Normal) :
  blend_left g (reflect u) (reflect_normal n) = reflect (blend_left g u n).
Proof.
  unfold blend_left. cbv zeta.
  rewrite normal_mach_reflect, normal_velocity_reflect, sound_speed_reflect.
  unfold reflect, reflect_normal. cbn [get x0 x1 x2 x3 fst snd pow].
  apply vec4_eq; unfold Rdiv; ring.
Qed.

Lemma blend_right_reflect (u : Vec4) (n : Normal) :
  blend_right g (reflect u) (reflect_normal n) = reflect (blend_right g u n).
Proof.
  unfold blend_right. cbv zeta.
  rewrite normal_mach_reflect, normal_velocity_reflect, sound_speed_reflect.
  unfold reflect, reflect_normal. cbn [get x0 x1 x2 x3 fst snd pow].
  apply vec4_eq; unfold Rdiv; ring.
Qed.

Lemma reflect_zeros : reflect zeros = zeros.
Proof. unfold reflect, zeros. cbn [get x0 x1 x2 x3]. apply vec4_eq; ring. Qed.

Lemma reflect_vadd (a b : Vec4) : reflect (vadd a b) = vadd (reflect a) (reflect b).
Proof. unfold reflect, vadd. cbn [get x0 x1 x2 x3]. apply vec4_eq; ring. Qed.

(** X3. Mirror symmetry of the Van Leer scheme: for valid states, reversing the y-momentum
    of both states and the y-component of the normal reverses the
    y-momentum entry of the flux and leaves the other three entries as they
    are. *)
Theorem X3_vanleer_reflection (ul ur : Vec4) (n : Normal) :
  valid_state g ul -> valid_state g ur ->
  get_flux g (reflect ul) (reflect ur) (reflect_normal n)
  = reflect (get_flux g ul ur n).
Proof.
  intros _ _. pose proof g_gt_1 as Hg.
  rewrite !get_flux_split, !fiplus_cases, !fjminus_cases, !normal_mach_reflect, reflect_vadd.
  f_equal.
  - destruct (Rlt_dec _ (-1)); [symmetry; apply reflect_zeros |].
    destruct (Rgt_dec _ 1); [apply euler_flux_reflect | apply blend_left_reflect].
  - destruct (Rgt_dec _ 1); [symmetry; apply reflect_zeros |].
    destruct (Rlt_dec _ (-1)); [apply euler_flux_reflect | apply blend_right_reflect].
Qed.

(** X4. Direction of the split mass fluxes: for a valid state the density
    entry of the forward flux [fiplus] is never negative and never below the
    physical mass flux, and the density entry of the backward flux [fjminus]
    is never positive and never above the physical mass flux. *)
Theorem X4_vanleer_split_mass_flux (u : Vec4) (n : Normal) :
  valid_state g u ->
  0 <= get (fiplus g u n) 0 /\
  get (euler_flux g u n) 0 <= get (fiplus g u n) 0 /\
  get (fjminus g u n) 0 <= 0 /\
  get (fjminus g u n) 0 <= get (euler_flux g u n) 0.
Proof.
  intros Hv. pose proof (sound_speed_pos g g_gt_1 u Hv) as Hc.
  destruct Hv as [Hrho _].
  assert (HF : get (euler_flux g u n) 0
               = get u 0 * sound_speed g u * normal_mach g u n).
  { unfold euler_flux, normal_mach. cbv zeta. cbn [get x0]. field. lra. }
  assert (Hrc : 0 < get u 0 * sound_speed g u) by (apply Rmult_lt_0_compat; assumption).
  rewrite fiplus_cases, fjminus_cases, HF.
  remember (normal_mach g u n) as M eqn:HM.
  remember (get u 0 * sound_speed g u) as a eqn:Ha.
  destruct (Rlt_dec M (-1)) as [H1 | H1]; destruct (Rgt_dec M 1) as [H2 | H2]; try lra.
  - rewrite HF. unfold zeros. cbn [get x0]. clear HF Hc Hrho. repeat split; nra.
  - rewrite HF. unfold zeros. cbn [get x0]. clear HF Hc Hrho. repeat split; nra.
  - unfold blend_left, blend_right. cbv zeta.
    change (get (mkVec4 ?a _ _ _) 0) with a. rewrite <- HM, <- Ha. cbn [pow].
    clear HF Hc Hrho. apply Rnot_lt_le in H1. apply Rnot_gt_le in H2.
    clear HM Ha.
    assert (S1 : 0 <= a * ((M + 1) * (M + 1)))
      by (apply Rmult_le_pos; [lra | apply Rle_0_sqr]).
    assert (S2 : 0 <= a * ((M - 1) * (M - 1)))
      by (apply Rmult_le_pos; [lra | apply Rle_0_sqr]).
    repeat split; nra.
Qed.

(** The mirror image of a state in a line with unit normal has the same
    pressure and sound speed and the opposite normal velocity. *)
Lemma mirror_momentum_sqr (u : Vec4) (n : Normal) :
  unit_normal n ->
  get (mirror_state u n) 1 * get (mirror_state u n) 1
  + get (mirror_state u n) 2 * get (mirror_state u n) 2
  = get u 1 * get u 1 + get u 2 * get u 2.
Proof.
  unfold unit_normal, mirror_state. intros Hn. cbv zeta. cbn [get x0 x1 x2 x3].
  set (mn := x1 u * n.1 + x2 u * n.2).
  transitivity (x1 u * x1 u + x2 u * x2 u
                + 4 * mn * mn * (n.1 * n.1 + n.2 * n.2 - 1)
                - 4 * mn * (x1 u * n.1 + x2 u * n.2 - mn)); [ring |].
  rewrite Hn. unfold mn. ring.
Qed.

Lemma pressure_mirror (u : Vec4) (n : Normal) :
  unit_normal n -> pressure g (mirror_state u n) = pressure g u.
Proof.
  intros Hn. unfold pressure. cbn [pow]. rewrite !Rmult_1_r.
  rewrite (mirror_momentum_sqr u n Hn). reflexivity.
Qed.

Lemma sound_speed_mirror (u : Vec4) (n : Normal) :
  unit_normal n -> sound_speed g (mirror_state u n) = sound_speed g u.
Proof. intros Hn. unfold sound_speed. rewrite (pressure_mirror u n Hn). reflexivity. Qed.

Lemma normal_velocity_mirror (u : Vec4) (n : Normal) :
  unit_normal n -> normal_velocity (mirror_state u n) n = - normal_velocity u n.
Proof.
  unfold unit_normal, normal_velocity, mirror_state. intros Hn. cbv zeta.
  cbn [get x0 x1 x2 x3].
  set (mn := x1 u * n.1 + x2 u * n.2).
  transitivity ((mn - 2 * mn * (n.1 * n.1 + n.2 * n.2)) / x0 u);
    [unfold mn, Rdiv; ring | rewrite Hn; unfold Rdiv; ring].
Qed.

Lemma normal_mach_mirror (u : Vec4) (n : Normal) :
  unit_normal n -> normal_mach g (mirror_state u n) n = - normal_mach g u n.
Proof.
  intros Hn. unfold normal_mach.
  rewrite (normal_velocity_mirror u n Hn), (sound_speed_mirror u n Hn). unfold Rdiv. ring.
Qed.

Lemma speed_sqr_mirror (u : Vec4) (n : Normal) :
  unit_normal n ->
  (get (mirror_state u n) 1 / get u 0) ^ 2 + (get (mirror_state u n) 2 / get u 0) ^ 2
  = (get u 1 / get u 0) ^ 2 + (get u 2 / get u 0) ^ 2.
Proof.
  intros Hn. cbn [pow]. rewrite !Rmult_1_r. unfold Rdiv.
  transitivity ((get (mirror_state u n) 1 * get (mirror_state u n) 1
                 + get (mirror_state u n) 2 * get (mirror_state u n) 2)
                * (/ get u 0 * / get u 0)); [ring |].
  rewrite (mirror_momentum_sqr u n Hn). ring.
Qed.

(** X5. No flow through a mirror: between a valid state and its mirror
    image in the face (unit normal), the Van Leer flux carries no mass and
    no energy, and its momentum is along the normal, at every Mach number. *)
Theorem X5_vanleer_mirror_flux (u : Vec4) (n : Normal) :
  valid_state g u -> unit_normal n ->
  let F := get_flux g u (mirror_state u n) n in
  get F 0 = 0 /\ get F 3 = 0 /\ get F 1 * snd n - get F 2 * fst n = 0.
Proof.
  intros _ Hn. pose proof g_gt_1 as Hg. cbv zeta.
  rewrite get_flux_split, fiplus_cases, fjminus_cases, (normal_mach_mirror u n Hn).
  destruct (Rlt_dec (normal_mach g u n) (-1)) as [H1 | H1];
    destruct (Rgt_dec (- normal_mach g u n) 1) as [H2 | H2]; try lra.
  - unfold vadd, zeros. cbn [get x0 x1 x2 x3]. repeat split; ring.
  - destruct (Rgt_dec (normal_mach g u n) 1) as [H3 | H3];
      destruct (Rlt_dec (- normal_mach g u n) (-1)) as [H4 | H4]; try lra.
    + unfold euler_flux. cbv zeta.
      rewrite (normal_velocity_mirror u n Hn), (pressure_mirror u n Hn).
      unfold vadd, mirror_state. cbv zeta. cbn [get x0 x1 x2 x3]. repeat split; ring.
    + unfold blend_left, blend_right. cbv zeta.
      change (get (mirror_state u n) 0) with (get u 0).
      rewrite (speed_sqr_mirror u n Hn), (normal_mach_mirror u n Hn),
        (normal_velocity_mirror u n Hn), (sound_speed_mirror u n Hn).
      unfold vadd, mirror_state. cbv zeta. cbn [get x0 x1 x2 x3 pow].
      repeat split; unfold Rdiv; ring.
Qed.

(** X11. A stationary contact through the Van Leer scheme: for two valid
    states with no velocity along the normal, the density entry of the flux
    is (rho_L c_L - rho_R c_R) / 4; with equal pressures and different
    densities it is not zero, so mass crosses the contact. *)
Theorem X11_vanleer_stationary_contact (ul ur : Vec4) (n : Normal) :
  valid_state g ul -> valid_state g ur ->
  normal_velocity ul n = 0 -> normal_velocity ur n = 0 ->
  get (get_flux g ul ur n) 0
  = (get ul 0 * sound_speed g ul - get ur 0 * sound_speed g ur) / 4 /\
  (pressure g ul = pressure g ur -> get ul 0 <> get ur 0 ->
   get (get_flux g ul ur n) 0 <> 0).
Proof.
  intros Hvl Hvr Hnl Hnr.
  assert (Ml : normal_mach g ul n = 0) by (unfold normal_mach; rewrite Hnl; unfold Rdiv; ring).
  assert (Mr : normal_mach g ur n = 0) by (unfold normal_mach; rewrite Hnr; unfold Rdiv; ring).
  assert (HF : get (get_flux g ul ur n) 0
               = (get ul 0 * sound_speed g ul - get ur 0 * sound_speed g ur) / 4).
  { rewrite get_flux_split, fiplus_cases, fjminus_cases, Ml, Mr.
    destruct (Rlt_dec 0 (-1)); [lra |]. destruct (Rgt_dec 0 1); [lra |].
    unfold blend_left, blend_right, vadd. cbv zeta. rewrite Ml, Mr.
    cbn [get x0 pow]. field. }
  split; [exact HF |].
  intros Hp Hrho Hz. rewrite HF in Hz.
  pose proof (sound_speed_pos g g_gt_1 ul Hvl) as Hcl.
  pose proof (sound_speed_pos g g_gt_1 ur Hvr) as Hcr.
  pose proof (sound_speed_sqr g g_gt_1 ul Hvl) as Sl.
  pose proof (sound_speed_sqr g g_gt_1 ur Hvr) as Sr.
  destruct Hvl as [Hl Hpl], Hvr as [Hr Hpr].
  assert (Heq : get ul 0 * sound_speed g ul = get ur 0 * sound_speed g ur) by lra.
  assert (Hsq : get ul 0 * (get ul 0 * (sound_speed g ul * sound_speed g ul))
                = get ur 0 * (get ur 0 * (sound_speed g ur * sound_speed g ur))).
  { transitivity ((get ul 0 * sound_speed g ul) * (get ul 0 * sound_speed g ul)); [ring |].
    rewrite Heq. ring. }
  rewrite Sl, Sr, Hp in Hsq.
  apply Hrho.
  assert (Hgp : 0 < g * pressure g ur) by nra.
  apply Rmult_eq_reg_r with (g * pressure g ur); [| lra].
  transitivity (get ul 0 * (get ul 0 * (g * pressure g ur / get ul 0))); [field; lra |].
  rewrite Hsq. field. lra.
Qed.

End VanLeerMore.

(** ** Roe: averages, the entropy fix at rest, symmetry, upwinding *)

Section RoeMore.

Variable g : R.
Hypothesis g_gt_1 : 1 < g.

Import RoeFlux RoeAverages.

Lemma density_ratio_pos (ul ur : Vec4) :
  0 < get ul 0 -> 0 < get ur 0 ->
  0 < Rij ul ur /\ Rij ul ur * Rij ul ur = get ur 0 / get ul 0.
Proof.
  intros Hl Hr. unfold Rij.
  assert (H : 0 < get ur 0 / get ul 0) by (apply Rdiv_lt_0_compat; assumption).
  split; [apply sqrt_lt_R0; exact H | apply sqrt_sqrt; lra].
Qed.

(** The radicand of the averaged sound speed: a weighted mean of the two
    squared sound speeds plus a multiple of the squared velocity jump. *)
Lemma cij_radicand (fi_init ul ur : Vec4) (n : Normal) :
  valid_state g ul -> valid_state g ur ->
  let k := Rij ul ur in
  let dvx := get ur 1 / get ur 0 - get ul 1 / get ul 0 in
  let dvy := get ur 2 / get ur 0 - get ul 2 / get ul 0 in
  let q := (k * (sound_speed g ur * sound_speed g ur)
            + sound_speed g ul * sound_speed g ul) / (k + 1)
           + (g - 1) / 2 * k / ((k + 1) * (k + 1)) * (dvx * dvx + dvy * dvy) in
  0 < q /\ cij (locals g fi_init ul ur n) = sqrt q.
Proof.
  intros Hvl Hvr. cbv zeta.
  pose proof (sound_speed_pos g g_gt_1 ul Hvl) as Hcl.
  pose proof (sound_speed_pos g g_gt_1 ur Hvr) as Hcr.
  destruct (density_ratio_pos ul ur (proj1 Hvl) (proj1 Hvr)) as [Hk _].
  split.
  - set (k := Rij ul ur) in *.
    apply Rplus_lt_le_0_compat.
    + apply Rdiv_lt_0_compat; [| lra].
      apply Rplus_lt_0_compat; [| apply Rmult_lt_0_compat; assumption].
      apply Rmult_lt_0_compat; [assumption | apply Rmult_lt_0_compat; assumption].
    + apply Rmult_le_pos;
        [| apply Rplus_le_le_0_compat; apply Rle_0_sqr].
      apply Rmult_le_pos; [apply Rmult_le_pos; [lra | lra] |].
      apply Rlt_le, Rinv_0_lt_compat. nra.
  - unfold locals. cbv zeta. cbn [cij]. f_equal.
    rewrite (sound_speed_sqr g g_gt_1 ul Hvl), (sound_speed_sqr g g_gt_1 ur Hvr).
    destruct Hvl as [Hl _], Hvr as [Hr _]. unfold Rij in *.
    set (k := sqrt (get ur 0 / get ul 0)) in *. clearbody k.
    unfold pressure. destruct ul as [rl ml1 ml2 El], ur as [rr mr1 mr2 Er].
    cbn [get x0 x1 x2 x3 pow] in *. lits. field. lra.
Qed.

Lemma cij_pos (fi_init ul ur : Vec4) (n : Normal) :
  valid_state g ul -> valid_state g ur -> 0 < cij (locals g fi_init ul ur n).
Proof.
  intros Hvl Hvr. destruct (cij_radicand fi_init ul ur n Hvl Hvr) as [Hq Hc].
  cbv zeta in Hq, Hc. rewrite Hc. apply sqrt_lt_R0. exact Hq.
Qed.

(** X6. For valid states the Roe scheme takes no square root of a
    negative number and divides by nothing that vanishes: both sound speeds,
    the averaged density and the averaged sound speed are positive, and the
    square of the averaged sound speed is the weighted mean of the squared
    sound speeds plus (gamma-1)/2 Rij/(Rij+1)^2 times the squared velocity
    jump, hence at least the smaller of the two squared sound speeds. *)
Theorem X6_roe_sound_speeds_positive (fi_init ul ur : Vec4) (n : Normal) :
  valid_state g ul -> valid_state g ur ->
  let w := locals g fi_init ul ur n in
  let k := Rij ul ur in
  let dvx := get ur 1 / get ur 0 - get ul 1 / get ul 0 in
  let dvy := get ur 2 / get ur 0 - get ul 2 / get ul 0 in
  0 < ci w /\ 0 < cj w /\ 0 < k /\ 0 < rhoij ul ur /\ 0 < cij w /\
  cij w * cij w = (k * (cj w * cj w) + ci w * ci w) / (k + 1)
                  + (g - 1) / 2 * k / ((k + 1) * (k + 1)) * (dvx * dvx + dvy * dvy) /\
  Rmin (ci w * ci w) (cj w * cj w) <= cij w * cij w.
Proof.
  intros Hvl Hvr. cbv zeta.
  destruct (locals_left g fi_init ul ur n (proj1 Hvl)) as [_ Hci].
  destruct (locals_right g fi_init ul ur n (proj1 Hvr)) as [_ Hcj].
  destruct (cij_radicand fi_init ul ur n Hvl Hvr) as [Hq Hc]. cbv zeta in Hq, Hc.
  destruct (density_ratio_pos ul ur (proj1 Hvl) (proj1 Hvr)) as [Hk _].
  pose proof (sound_speed_pos g g_gt_1 ul Hvl) as Hcl.
  pose proof (sound_speed_pos g g_gt_1 ur Hvr) as Hcr.
  rewrite Hci, Hcj.
  assert (Hc2 : cij (locals g fi_init ul ur n) * cij (locals g fi_init ul ur n)
                = (Rij ul ur * (sound_speed g ur * sound_speed g ur)
                   + sound_speed g ul * sound_speed g ul) / (Rij ul ur + 1)
                  + (g - 1) / 2 * Rij ul ur / ((Rij ul ur + 1) * (Rij ul ur + 1))
                    * ((get ur 1 / get ur 0 - get ul 1 / get ul 0)
                       * (get ur 1 / get ur 0 - get ul 1 / get ul 0)
                       + (get ur 2 / get ur 0 - get ul 2 / get ul 0)
                         * (get ur 2 / get ur 0 - get ul 2 / get ul 0))).
  { rewrite Hc. apply sqrt_sqrt. lra. }
  repeat split; try assumption.
  - unfold rhoij. apply Rmult_lt_0_compat; [exact Hk | exact (proj1 Hvl)].
  - rewrite Hc. apply sqrt_lt_R0. exact Hq.
  - rewrite Hc2.
    set (k := Rij ul ur) in *. set (cl := sound_speed g ul) in *.
    set (cr := sound_speed g ur) in *.
    assert (Hjump : 0 <= (g - 1) / 2 * k / ((k + 1) * (k + 1))
                         * ((get ur 1 / get ur 0 - get ul 1 / get ul 0)
                            * (get ur 1 / get ur 0 - get ul 1 / get ul 0)
                            + (get ur 2 / get ur 0 - get ul 2 / get ul 0)
                              * (get ur 2 / get ur 0 - get ul 2 / get ul 0))).
    { apply Rmult_le_pos; [| apply Rplus_le_le_0_compat; apply Rle_0_sqr].
      apply Rmult_le_pos; [apply Rmult_le_pos; [lra | lra] |].
      apply Rlt_le, Rinv_0_lt_compat. nra. }
    assert (Hmean : Rmin (cl * cl) (cr * cr) <= (k * (cr * cr) + cl * cl) / (k + 1)).
    { apply Rmult_le_reg_r with (k + 1); [lra |].
      replace ((k * (cr * cr) + cl * cl) / (k + 1) * (k + 1))
        with (k * (cr * cr) + cl * cl) by (field; lra).
      pose proof (Rmin_l (cl * cl) (cr * cr)) as M1.
      pose proof (Rmin_r (cl * cl) (cr * cr)) as M2.
      clearbody k cl cr. clear - Hk M1 M2.
      remember (Rmin (cl * cl) (cr * cr)) as m. remember (cl * cl) as A.
      remember (cr * cr) as B. clear Heqm HeqA HeqB. nra. }
    lra.
Qed.

(** The entropy fix, for arbitrary inputs. *)
Lemma entropy_fix_forms (fi_init vl vr : Vec4) (m : Normal) :
  let v := locals g fi_init vl vr m in
  (eps0 v = Rmax 0 (Rmax (vnij v - vni v) (vnj v - vnij v)) /\
   eps2 v = Rmax 0 (Rmax (vnij v + cij v - (vni v + ci v)) (vnj v + cj v - (vnij v + cij v))) /\
   eps3 v = Rmax 0 (Rmax (vnij v - cij v - (vni v - ci v)) (vnj v - cj v - (vnij v - cij v)))) /\
  (l0 v = (if Rlt_dec (Rabs (vnij v)) (eps0 v) then eps0 v else vnij v) /\
   l1 v = (if Rlt_dec (Rabs (vnij v)) (eps0 v) then eps0 v else vnij v) /\
   l2 v = (if Rlt_dec (Rabs (vnij v + cij v)) (eps2 v) then eps2 v else vnij v + cij v) /\
   l3 v = (if Rlt_dec (Rabs (vnij v - cij v)) (eps3 v) then eps3 v else vnij v - cij v)).
Proof.
  cbv zeta. split; [| repeat split; reflexivity].
  repeat split; apply harten_hyman_eps.
Qed.

Lemma equal_states_locals (fi_init u : Vec4) (n : Normal) :
  valid_state g u ->
  let w := locals g fi_init u u n in
  vnij w = normal_velocity u n /\ cij w = sound_speed g u /\
  eps0 w = 0 /\ eps2 w = 0 /\ eps3 w = 0 /\
  l0 w = normal_velocity u n /\ l1 w = normal_velocity u n /\
  l2 w = normal_velocity u n + sound_speed g u /\
  l3 w = normal_velocity u n - sound_speed g u.
Proof.
  intros Hv. cbv zeta.
  set (w := locals g fi_init u u n).
  pose proof (sound_speed_pos g g_gt_1 u Hv) as Hc.
  destruct (locals_left g fi_init u u n (proj1 Hv)) as [Hvni Hci].
  destruct (locals_right g fi_init u u n (proj1 Hv)) as [Hvnj Hcj].
  fold w in Hvni, Hci, Hvnj, Hcj.
  assert (Hk1 : sqrt (get u 0 / get u 0) = 1).
  { replace (get u 0 / get u 0) with 1 by (field; destruct Hv; lra). apply sqrt_1. }
  assert (Hvnij : vnij w = normal_velocity u n).
  { unfold w, locals. cbv zeta. cbn [vnij]. rewrite Hk1. unfold normal_velocity. lits.
    destruct Hv as [Hrho _]. field. lra. }
  assert (Hcij : cij w = sound_speed g u).
  { destruct (cij_radicand fi_init u u n Hv Hv) as [_ Hq]. cbv zeta in Hq. fold w in Hq.
    unfold Rij in Hq. rewrite Hq, Hk1.
    transitivity (sqrt (sound_speed g u * sound_speed g u));
      [f_equal; field; destruct Hv; lra | apply sqrt_square; lra]. }
  destruct (entropy_fix_forms fi_init u u n) as ((F0 & F2 & F3) & (L0 & L1 & L2 & L3)).
  fold w in F0, F2, F3, L0, L1, L2, L3.
  assert (E0 : eps0 w = 0).
  { rewrite F0, Hvnij, Hvni, Hvnj. unfold Rmax. repeat destruct (Rle_dec _ _); lra. }
  assert (E2 : eps2 w = 0).
  { rewrite F2, Hvnij, Hcij, Hvni, Hvnj, Hci, Hcj.
    unfold Rmax. repeat destruct (Rle_dec _ _); lra. }
  assert (E3 : eps3 w = 0).
  { rewrite F3, Hvnij, Hcij, Hvni, Hvnj, Hci, Hcj.
    unfold Rmax. repeat destruct (Rle_dec _ _); lra. }
  assert (L : forall x, (if Rlt_dec (Rabs x) 0 then 0 else x) = x).
  { intros x. destruct (Rlt_dec (Rabs x) 0) as [H | H]; [| reflexivity].
    pose proof (Rabs_pos x). lra. }
  repeat split; try assumption.
  - rewrite L0, E0, L. exact Hvnij.
  - rewrite L1, E0, L. exact Hvnij.
  - rewrite L2, E2, L, Hvnij, Hcij. reflexivity.
  - rewrite L3, E3, L, Hvnij, Hcij. reflexivity.
Qed.

(** X7. The Roe scheme on a uniform flow: with the same valid state on
    both sides the Roe averages are the values of that state, every eps of
    the entropy fix is 0 and the eigenvalues are left as vn, vn, vn + c,
    vn - c; the dissipation term vanishes in all four entries, and the
    density and x-momentum entries of the returned flux are those of the
    physical flux, while the other two entries are the mean of the physical
    flux entry and the initial content of [fi[2]], [fi[3]]. *)
Theorem X7_roe_uniform_flow (fi_init u : Vec4) (n : Normal) :
  valid_state g u ->
  let w := locals g fi_init u u n in
  let F := euler_flux g u n in
  (vnij w = normal_velocity u n /\ cij w = sound_speed g u) /\
  (eps0 w = 0 /\ eps2 w = 0 /\ eps3 w = 0) /\
  (l0 w = normal_velocity u n /\ l1 w = normal_velocity u n /\
   l2 w = normal_velocity u n + sound_speed g u /\
   l3 w = normal_velocity u n - sound_speed g u) /\
  (forall k : nat, dissipation w k = 0) /\
  get_flux g fi_init u u n
  = mkVec4 (get F 0) (get F 1)
           (/ 2 * (get fi_init 2 + get F 2)) (/ 2 * (get fi_init 3 + get F 3)).
Proof.
  intros Hv. cbv zeta.
  destruct (equal_states_locals fi_init u n Hv)
    as (A1 & A2 & A3 & A4 & A5 & A6 & A7 & A8 & A9).
  repeat split; try assumption.
  - intros k. apply dissipation_equal_states.
  - apply (roe_equal_states g fi_init u n (proj1 Hv)).
Qed.

(** X8. The dissipation term of the Roe scheme is rotationally
    equivariant: for valid states and the problem rotated by any angle it
    is the rotated dissipation vector of the original problem; the density
    entry of the returned flux is therefore the same for both problems. *)
Theorem X8_roe_dissipation_rotation (theta : R) (fi_init ul ur : Vec4) (n : Normal) :
  valid_state g ul -> valid_state g ur ->
  let w := locals g fi_init ul ur n in
  let w' := locals g fi_init (rotate theta ul) (rotate theta ur) (rotate_normal theta n) in
  mkVec4 (dissipation w' 0) (dissipation w' 1) (dissipation w' 2) (dissipation w' 3)
  = rotate theta
      (mkVec4 (dissipation w 0) (dissipation w 1) (dissipation w 2) (dissipation w 3)) /\
  get (get_flux g fi_init (rotate theta ul) (rotate theta ur) (rotate_normal theta n)) 0
  = get (get_flux g fi_init ul ur n) 0.
Proof.
  intros [Hl _] [Hr _]. pose proof g_gt_1 as Hg. cbv zeta.
  pose proof (dissipation_rotate g theta fi_init ul ur n) as D. cbv zeta in D.
  split; [exact D |].
  assert (Hl' : 0 < get (rotate theta ul) 0) by exact Hl.
  assert (Hr' : 0 < get (rotate theta ur) 0) by exact Hr.
  rewrite (roe_get_flux_entries g fi_init _ _ _ Hl' Hr'),
    (roe_get_flux_entries g fi_init ul ur n Hl Hr).
  cbv zeta. cbn [get x0].
  rewrite !(euler_flux_rotate g theta).
  rewrite (dissipation_fi_init g zeros fi_init (rotate theta ul)),
    (dissipation_fi_init g zeros fi_init ul).
  injection D as D0 _ _ _. rewrite D0.
  unfold rotate. cbn [get x0 x1 x2 x3]. reflexivity.
Qed.

(** The locals of the scheme in terms of the Roe averages. *)
Lemma locals_forms (fi_init ul ur : Vec4) (n : Normal) :
  0 < get ul 0 -> 0 < get ur 0 ->
  let w := locals g fi_init ul ur n in
  let vx := vxij ul ur in
  let vy := vyij ul ur in
  let H := Hij g ul ur in
  let s := rhoij ul ur / (2 * cij w) in
  vnij w = vx * fst n + vy * snd n /\
  r0 w = mkVec4 1 vx vy ((vx * vx + vy * vy) / 2) /\
  r1 w = mkVec4 0 (cij w * snd n) (- cij w * fst n) (cij w * (vx * snd n - vy * fst n)) /\
  r2 w = mkVec4 s ((vx + cij w * fst n) * s) ((vy + cij w * snd n) * s)
                ((H + cij w * vnij w) * s) /\
  r3 w = mkVec4 s ((vx - cij w * fst n) * s) ((vy - cij w * snd n) * s)
                ((H - cij w * vnij w) * s) /\
  dw w = mkVec4 (get ur 0 - get ul 0 - (pressure g ur - pressure g ul) / (cij w * cij w))
                ((get ur 1 / get ur 0 - get ul 1 / get ul 0) * snd n
                 - (get ur 2 / get ur 0 - get ul 2 / get ul 0) * fst n)
                (vnj w - vni w + (pressure g ur - pressure g ul) / (rhoij ul ur * cij w))
                (- (vnj w - vni w)
                 + (pressure g ur - pressure g ul) / (rhoij ul ur * cij w)).
Proof.
  intros Hl Hr. cbv zeta.
  rewrite <- (roe_pressure g ul Hl), <- (roe_pressure g ur Hr).
  unfold vxij, vyij, Hij, rhoij, Rij.
  rewrite <- (roe_pressure g ul Hl), <- (roe_pressure g ur Hr).
  unfold locals. cbv zeta. cbn [vnij cij vni vnj r0 r1 r2 r3 dw]. lits.
  repeat split; apply vec4_eq; unfold Rdiv; ring.
Qed.

(** *** Exchanging the two sides *)

Lemma density_ratio_swap (ul ur : Vec4) :
  0 < get ul 0 -> 0 < get ur 0 -> Rij ur ul = / Rij ul ur.
Proof.
  intros Hl Hr. destruct (density_ratio_pos ul ur Hl Hr) as [Hk Hk2].
  destruct (density_ratio_pos ur ul Hr Hl) as [Hk' Hk2'].
  set (k := Rij ul ur) in *. set (k' := Rij ur ul) in *.
  assert (H : (k * k') * (k * k') = 1).
  { transitivity ((k * k) * (k' * k')); [ring |]. rewrite Hk2, Hk2'. field. lra. }
  assert (Hkk : k * k' = 1).
  { assert (0 < k * k') by (apply Rmult_lt_0_compat; assumption). nra. }
  apply Rmult_eq_reg_l with k; [| lra]. rewrite Hkk. field. lra.
Qed.

Section Swapped.

Variables (ul ur : Vec4) (n : Normal) (a b : Vec4).
Hypothesis Hvl : valid_state g ul.
Hypothesis Hvr : valid_state g ur.

Let Hl : 0 < get ul 0 := proj1 Hvl.
Let Hr : 0 < get ur 0 := proj1 Hvr.
Let w := locals g b ul ur n.
Let w' := locals g a ur ul (nopp n).

Lemma rhoij_swap : rhoij ur ul = rhoij ul ur.
Proof.
  unfold rhoij. rewrite (density_ratio_swap ul ur Hl Hr).
  destruct (density_ratio_pos ul ur Hl Hr) as [Hk Hk2].
  set (k := Rij ul ur) in *.
  assert (Hrr : get ur 0 = k * k * get ul 0) by (rewrite Hk2; field; lra).
  rewrite Hrr. field. lra.
Qed.

Lemma vxij_swap : vxij ur ul = vxij ul ur.
Proof.
  unfold vxij. rewrite (density_ratio_swap ul ur Hl Hr).
  destruct (density_ratio_pos ul ur Hl Hr) as [Hk _].
  set (k := Rij ul ur) in *. field. repeat split; lra.
Qed.

Lemma vyij_swap : vyij ur ul = vyij ul ur.
Proof.
  unfold vyij. rewrite (density_ratio_swap ul ur Hl Hr).
  destruct (density_ratio_pos ul ur Hl Hr) as [Hk _].
  set (k := Rij ul ur) in *. field. repeat split; lra.
Qed.

Lemma Hij_swap : Hij g ur ul = Hij g ul ur.
Proof.
  unfold Hij. rewrite (density_ratio_swap ul ur Hl Hr).
  destruct (density_ratio_pos ul ur Hl Hr) as [Hk _].
  set (k := Rij ul ur) in *. field. repeat split; lra.
Qed.

Lemma swap_cij : cij w' = cij w.
Proof.
  unfold w, w'.
  destruct (cij_radicand a ur ul (nopp n) Hvr Hvl) as [_ ->].
  destruct (cij_radicand b ul ur n Hvl Hvr) as [_ ->].
  f_equal. rewrite (density_ratio_swap ul ur Hl Hr).
  destruct (density_ratio_pos ul ur Hl Hr) as [Hk _].
  set (k := Rij ul ur) in *. field. repeat split; lra.
Qed.

Lemma swap_sides :
  vni w' = - vnj w /\ vnj w' = - vni w /\ ci w' = cj w /\ cj w' = ci w.
Proof.
  destruct (locals_left g a ur ul (nopp n) Hr) as [A1 A2].
  destruct (locals_right g a ur ul (nopp n) Hl) as [A3 A4].
  destruct (locals_left g b ul ur n Hl) as [B1 B2].
  destruct (locals_right g b ul ur n Hr) as [B3 B4].
  fold w' in A1, A2, A3, A4. fold w in B1, B2, B3, B4.
  rewrite A1, A2, A3, A4, B1, B2, B3, B4, !normal_velocity_nopp. auto.
Qed.

Lemma swap_vnij : vnij w' = - vnij w.
Proof.
  destruct (locals_forms a ur ul (nopp n) Hr Hl) as [A _].
  destruct (locals_forms b ul ur n Hl Hr) as [B _].
  fold w' in A. fold w in B. rewrite A, B, vxij_swap, vyij_swap.
  unfold nopp. cbn [fst snd]. ring.
Qed.

Lemma Rmax3_swap (x y x' y' : R) :
  x' = y -> y' = x -> Rmax 0 (Rmax x' y') = Rmax 0 (Rmax x y).
Proof. intros -> ->. rewrite (Rmax_comm y x). reflexivity. Qed.

Lemma swap_eps : eps0 w' = eps0 w /\ eps2 w' = eps3 w /\ eps3 w' = eps2 w.
Proof.
  destruct swap_sides as (S1 & S2 & S3 & S4).
  pose proof swap_cij as Sc. pose proof swap_vnij as Sv.
  destruct (entropy_fix_forms a ur ul (nopp n)) as ((A0 & A2 & A3) & _).
  destruct (entropy_fix_forms b ul ur n) as ((B0 & B2 & B3) & _).
  fold w' in A0, A2, A3. fold w in B0, B2, B3.
  rewrite A0, A2, A3, B0, B2, B3, S1, S2, S3, S4, Sc, Sv.
  repeat split; apply Rmax3_swap; ring.
Qed.

Lemma fix_abs (x e y e' : R) :
  Rabs y = Rabs x -> e' = e -> 0 <= e ->
  Rabs (if Rlt_dec (Rabs y) e' then e' else y) = Rabs (if Rlt_dec (Rabs x) e then e else x).
Proof.
  intros Hy -> He. rewrite Hy. destruct (Rlt_dec (Rabs x) e); [reflexivity | exact Hy].
Qed.

Lemma swap_abs :
  Rabs (l0 w') = Rabs (l0 w) /\ Rabs (l1 w') = Rabs (l1 w) /\
  Rabs (l2 w') = Rabs (l3 w) /\ Rabs (l3 w') = Rabs (l2 w).
Proof.
  destruct swap_eps as (E0 & E2 & E3).
  pose proof swap_cij as Sc. pose proof swap_vnij as Sv.
  destruct (entropy_fix_forms a ur ul (nopp n)) as (_ & (A0 & A1 & A2 & A3)).
  destruct (entropy_fix_forms b ul ur n) as ((F0 & F2 & F3) & (B0 & B1 & B2 & B3)).
  fold w' in A0, A1, A2, A3. fold w in B0, B1, B2, B3, F0, F2, F3.
  rewrite A0, A1, A2, A3, B0, B1, B2, B3.
  repeat split; apply fix_abs; try assumption.
  - rewrite Sv. apply Rabs_Ropp.
  - rewrite F0. apply Rmax_l.
  - rewrite Sv. apply Rabs_Ropp.
  - rewrite F0. apply Rmax_l.
  - rewrite Sv, Sc, <- Rabs_Ropp. f_equal. ring.
  - rewrite F3. apply Rmax_l.
  - rewrite Sv, Sc, <- Rabs_Ropp. f_equal. ring.
  - rewrite F2. apply Rmax_l.
Qed.

Lemma swap_dissipation (k : nat) : dissipation w' k = - dissipation w k.
Proof.
  destruct swap_sides as (S1 & S2 & S3 & S4).
  pose proof swap_cij as Sc. pose proof swap_vnij as Sv.
  destruct swap_abs as (A0 & A1 & A2 & A3).
  destruct (locals_forms a ur ul (nopp n) Hr Hl) as (_ & P0 & P1 & P2 & P3 & Pd).
  destruct (locals_forms b ul ur n Hl Hr) as (_ & Q0 & Q1 & Q2 & Q3 & Qd).
  fold w' in P0, P1, P2, P3, Pd. fold w in Q0, Q1, Q2, Q3, Qd.
  unfold dissipation. rewrite A0, A1, A2, A3.
  rewrite P0, P1, P2, P3, Pd, Q0, Q1, Q2, Q3, Qd.
  rewrite S1, S2, Sc, Sv, vxij_swap, vyij_swap, Hij_swap, rhoij_swap.
  unfold nopp. cbn [fst snd].
  destruct k as [| [| [| k]]]; cbn [get x0 x1 x2 x3]; unfold Rdiv; ring.
Qed.

End Swapped.

(** X9. Skew symmetry of the Roe scheme as far as it goes: for valid
    states, exchanging the two sides and reversing the normal leaves the
    Roe averages and the magnitudes of the entropy-fixed eigenvalues as they
    are (the two acoustic ones change places) and negates the dissipation
    term in all four entries; the density and x-momentum entries of the
    returned flux are negated, whatever the array [fi] held in either call. *)
Theorem X9_roe_skew_symmetry (a b ul ur : Vec4) (n : Normal) :
  valid_state g ul -> valid_state g ur ->
  let w := locals g b ul ur n in
  let w' := locals g a ur ul (nopp n) in
  (rhoij ur ul = rhoij ul ur /\ vxij ur ul = vxij ul ur /\ vyij ur ul = vyij ul ur /\
   Hij g ur ul = Hij g ul ur /\ cij w' = cij w /\ vnij w' = - vnij w) /\
  (Rabs (l0 w') = Rabs (l0 w) /\ Rabs (l1 w') = Rabs (l1 w) /\
   Rabs (l2 w') = Rabs (l3 w) /\ Rabs (l3 w') = Rabs (l2 w)) /\
  (forall k : nat, dissipation w' k = - dissipation w k) /\
  get (get_flux g a ur ul (nopp n)) 0 = - get (get_flux g b ul ur n) 0 /\
  get (get_flux g a ur ul (nopp n)) 1 = - get (get_flux g b ul ur n) 1.
Proof.
  intros Hvl Hvr. cbv zeta.
  split.
  { repeat split.
    - apply (rhoij_swap ul ur Hvl Hvr).
    - apply (vxij_swap ul ur Hvl Hvr).
    - apply (vyij_swap ul ur Hvl Hvr).
    - apply (Hij_swap ul ur Hvl Hvr).
    - apply (swap_cij ul ur n a b Hvl Hvr).
    - apply (swap_vnij ul ur n a b Hvl Hvr). }
  split; [apply (swap_abs ul ur n a b Hvl Hvr) |].
  split; [intros k; apply (swap_dissipation ul ur n a b Hvl Hvr) |].
  rewrite (roe_get_flux_entries g a ur ul (nopp n) (proj1 Hvr) (proj1 Hvl)),
    (roe_get_flux_entries g b ul ur n (proj1 Hvl) (proj1 Hvr)).
  cbv zeta. cbn [get x0 x1].
  rewrite !(swap_dissipation ul ur n zeros zeros Hvl Hvr), !euler_flux_nopp.
  unfold vopp. cbn [x0 x1]. split; ring.
Qed.

(** *** The wave decomposition of the flux jump *)

(** Opens the locals of a pair of valid states: the averaged sound speed
    becomes a positive variable [c], the density ratio a positive variable
    [k], the right density [k * k * rl], and the states their entries. *)
Ltac open_roe fi_init ul ur n Hvl Hvr :=
  let Hq := fresh "Hq" in
  let Hc := fresh "Hc" in
  let Hk := fresh "Hk" in
  let Hk2 := fresh "Hk2" in
  destruct (cij_radicand fi_init ul ur n Hvl Hvr) as [Hq Hc]; cbv zeta in Hq, Hc;
  destruct (density_ratio_pos ul ur (proj1 Hvl) (proj1 Hvr)) as [Hk Hk2];
  rewrite (sound_speed_sqr g g_gt_1 ul Hvl), (sound_speed_sqr g g_gt_1 ur Hvr) in Hq, Hc;
  unfold wave_sum, shear_excess, rhoij, Rij, locals in *; cbv zeta in *;
  cbn [vnij cij dw r0 r1 r2 r3] in *;
  set (c := sqrt ((g - 1.0) * _)) in *;
  assert (Hcpos : 0 < c) by (rewrite Hc; apply sqrt_lt_R0; exact Hq);
  assert (Hc2 : c * c = _) by (rewrite Hc; apply sqrt_sqrt, Rlt_le, Hq);
  clear Hc Hq; clearbody c;
  set (k := sqrt (get ur 0 / get ul 0)) in *; clearbody k;
  destruct Hvl as [Hl _], Hvr as [Hr _];
  unfold euler_flux, normal_velocity, pressure, unit_normal in *; cbv zeta;
  destruct ul as [rl ml1 ml2 El], ur as [rr mr1 mr2 Er], n as [n0 n1];
  cbn [get x0 x1 x2 x3 pow fst snd] in *; lits;
  assert (Hrr : rr = k * k * rl) by (rewrite Hk2; field; lra);
  clear Hk2; subst rr.

Lemma wave_sum_mass (fi_init ul ur : Vec4) (n : Normal) :
  valid_state g ul -> valid_state g ur ->
  wave_sum (locals g fi_init ul ur n) 0
  = get (euler_flux g ur n) 0 - get (euler_flux g ul n) 0.
Proof.
  intros Hvl Hvr. open_roe fi_init ul ur n Hvl Hvr. clear Hc2.
  field. repeat split; lra.
Qed.

Lemma wave_sum_momentum_x (fi_init ul ur : Vec4) (n : Normal) :
  valid_state g ul -> valid_state g ur -> unit_normal n ->
  let w := locals g fi_init ul ur n in
  wave_sum w 1
  = get (euler_flux g ur n) 1 - get (euler_flux g ul n) 1 + shear_excess ul ur w 1.
Proof.
  intros Hvl Hvr Hn. cbv zeta. open_roe fi_init ul ur n Hvl Hvr. clear Hc2.
  match goal with |- ?L = ?R =>
    transitivity (R + (n0 * n0 + n1 * n1 - 1)
                      * (k * rl * ((k * (mr1 / (k * k * rl)) + ml1 / rl) / (k + 1) * n0
                                   + (k * (mr2 / (k * k * rl)) + ml2 / rl) / (k + 1) * n1)
                         * (mr1 / (k * k * rl) - ml1 / rl)))
  end.
  - field. repeat split; lra.
  - rewrite Hn. ring.
Qed.

Lemma wave_sum_momentum_y (fi_init ul ur : Vec4) (n : Normal) :
  valid_state g ul -> valid_state g ur -> unit_normal n ->
  let w := locals g fi_init ul ur n in
  wave_sum w 2
  = get (euler_flux g ur n) 2 - get (euler_flux g ul n) 2 + shear_excess ul ur w 2.
Proof.
  intros Hvl Hvr Hn. cbv zeta. open_roe fi_init ul ur n Hvl Hvr. clear Hc2.
  match goal with |- ?L = ?R =>
    transitivity (R + (n0 * n0 + n1 * n1 - 1)
                      * (k * rl * ((k * (mr1 / (k * k * rl)) + ml1 / rl) / (k + 1) * n0
                                   + (k * (mr2 / (k * k * rl)) + ml2 / rl) / (k + 1) * n1)
                         * (mr2 / (k * k * rl) - ml2 / rl)))
  end.
  - field. repeat split; lra.
  - rewrite Hn. ring.
Qed.

Lemma wave_sum_energy (fi_init ul ur : Vec4) (n : Normal) :
  valid_state g ul -> valid_state g ur -> unit_normal n ->
  let w := locals g fi_init ul ur n in
  wave_sum w 3
  = get (euler_flux g ur n) 3 - get (euler_flux g ul n) 3 + shear_excess ul ur w 3.
Proof.
  intros Hvl Hvr Hn. cbv zeta. open_roe fi_init ul ur n Hvl Hvr.
  assert (HEr : Er = (k * k * rl) / (k * g * (g - 1))
                     * ((c * c - (g - 1) / 2 * k / ((k + 1) * (k + 1))
                                 * ((mr1 / (k * k * rl) - ml1 / rl) * (mr1 / (k * k * rl) - ml1 / rl)
                                    + (mr2 / (k * k * rl) - ml2 / rl) * (mr2 / (k * k * rl) - ml2 / rl)))
                        * (k + 1)
                        - g * ((g - 1) * (El - / 2 * (ml1 * ml1 + ml2 * ml2) / rl)) / rl)
                     + / 2 * (mr1 * mr1 + mr2 * mr2) / (k * k * rl)).
  { rewrite Hc2. field. repeat split; lra. }
  clear Hc2. subst Er.
  match goal with |- ?L = ?R =>
    transitivity (R + (n0 * n0 + n1 * n1 - 1)
                      * (k * rl * ((k * (mr1 / (k * k * rl)) + ml1 / rl) / (k + 1) * n0
                                   + (k * (mr2 / (k * k * rl)) + ml2 / rl) / (k + 1) * n1)
                         * ((k * (mr1 / (k * k * rl)) + ml1 / rl) / (k + 1)
                              * (mr1 / (k * k * rl) - ml1 / rl)
                            + (k * (mr2 / (k * k * rl)) + ml2 / rl) / (k + 1)
                              * (mr2 / (k * k * rl) - ml2 / rl))))
  end.
  - field. repeat split; lra.
  - rewrite Hn. ring.
Qed.

Lemma shear_excess_mass (fi_init ul ur : Vec4) (n : Normal) :
  shear_excess ul ur (locals g fi_init ul ur n) 0 = 0.
Proof.
  unfold shear_excess.
  change (get (r1 (locals g fi_init ul ur n)) 0) with 0. ring.
Qed.

(** The wave sum is the flux jump plus the excess of the shear wave, in
    every entry. *)
Lemma wave_sum_flux_jump (fi_init ul ur : Vec4) (n : Normal) (k : nat) :
  valid_state g ul -> valid_state g ur -> unit_normal n -> (k < 4)%nat ->
  let w := locals g fi_init ul ur n in
  wave_sum w k
  = get (euler_flux g ur n) k - get (euler_flux g ul n) k + shear_excess ul ur w k.
Proof.
  intros Hvl Hvr Hn Hk. cbv zeta.
  destruct k as [| [| [| [| k]]]]; try lia.
  - rewrite shear_excess_mass, (wave_sum_mass fi_init ul ur n Hvl Hvr). ring.
  - apply (wave_sum_momentum_x fi_init ul ur n Hvl Hvr Hn).
  - apply (wave_sum_momentum_y fi_init ul ur n Hvl Hvr Hn).
  - apply (wave_sum_energy fi_init ul ur n Hvl Hvr Hn).
Qed.

Lemma fix_inactive (lam eps : R) :
  0 <= eps -> eps <= lam ->
  Rabs (if Rlt_dec (Rabs lam) eps then eps else lam) = lam.
Proof.
  intros He Hl. assert (Ha : Rabs lam = lam) by (apply Rabs_right; lra).
  rewrite Ha. destruct (Rlt_dec lam eps); [lra | exact Ha].
Qed.

Lemma fix_inactive_neg (lam eps : R) :
  0 <= eps -> eps <= - lam ->
  Rabs (if Rlt_dec (Rabs lam) eps then eps else lam) = - lam.
Proof.
  intros He Hl. assert (Ha : Rabs lam = - lam).
  { destruct (Req_dec lam 0) as [-> | Hne]; [rewrite Rabs_R0; ring | apply Rabs_left; lra]. }
  rewrite Ha. destruct (Rlt_dec (- lam) eps); [lra | exact Ha].
Qed.

(** X10. Upwinding of the Roe scheme in supersonic flow.  For valid
    states and a unit normal, when every eigenvalue is at least the eps of
    its group (all waves run from left to right and the entropy fix is
    inactive), the dissipation term is the flux jump F_right - F_left plus
    the excess of the shear wave, whose eigenvector the code scales by
    [cij] and not by [rhoij]; the density entry of the returned flux is the
    left physical mass flux, and the x-momentum entry is the left physical
    x-momentum flux less one half of that excess.  When every eigenvalue is
    at most minus the eps of its group the same holds with the right state
    and the opposite sign. *)
Theorem X10_roe_supersonic_upwinding (fi_init ul ur : Vec4) (n : Normal) :
  valid_state g ul -> valid_state g ur -> unit_normal n ->
  let w := locals g fi_init ul ur n in
  let FL := euler_flux g ul n in
  let FR := euler_flux g ur n in
  let flux := get_flux g fi_init ul ur n in
  (eps0 w <= vnij w -> eps2 w <= vnij w + cij w -> eps3 w <= vnij w - cij w ->
   (forall k, (k < 4)%nat ->
      dissipation w k = get FR k - get FL k + shear_excess ul ur w k) /\
   get flux 0 = get FL 0 /\
   get flux 1 = get FL 1 - / 2 * shear_excess ul ur w 1) /\
  (eps0 w <= - vnij w -> eps2 w <= - (vnij w + cij w) -> eps3 w <= - (vnij w - cij w) ->
   (forall k, (k < 4)%nat ->
      dissipation w k = - (get FR k - get FL k + shear_excess ul ur w k)) /\
   get flux 0 = get FR 0 /\
   get flux 1 = get FR 1 + / 2 * shear_excess ul ur w 1).
Proof.
  intros Hvl Hvr Hn. cbv zeta.
  set (w := locals g fi_init ul ur n).
  destruct (entropy_fix_forms fi_init ul ur n) as ((F0 & F2 & F3) & (L0 & L1 & L2 & L3)).
  fold w in F0, F2, F3, L0, L1, L2, L3.
  assert (P0 : 0 <= eps0 w) by (rewrite F0; apply Rmax_l).
  assert (P2 : 0 <= eps2 w) by (rewrite F2; apply Rmax_l).
  assert (P3 : 0 <= eps3 w) by (rewrite F3; apply Rmax_l).
  pose proof (roe_get_flux_entries g fi_init ul ur n (proj1 Hvl) (proj1 Hvr)) as HF.
  cbv zeta in HF. rewrite !(dissipation_fi_init g zeros fi_init) in HF. fold w in HF.
  split.
  - intros H0 H2 H3.
    assert (D : forall k, (k < 4)%nat ->
              dissipation w k = get (euler_flux g ur n) k - get (euler_flux g ul n) k
                                + shear_excess ul ur w k).
    { intros k Hk.
      pose proof (wave_sum_flux_jump fi_init ul ur n k Hvl Hvr Hn Hk) as W.
      cbv zeta in W. fold w in W. rewrite <- W.
      unfold dissipation, wave_sum.
      rewrite L0, L1, L2, L3, !fix_inactive by assumption. ring. }
    split; [exact D |].
    rewrite HF. cbn [get x0 x1]. rewrite (D 0%nat), (D 1%nat) by lia.
    pose proof (shear_excess_mass fi_init ul ur n) as S0. fold w in S0. rewrite S0.
    cbn [get]. split; lra.
  - intros H0 H2 H3.
    assert (D : forall k, (k < 4)%nat ->
              dissipation w k = - (get (euler_flux g ur n) k - get (euler_flux g ul n) k
                                   + shear_excess ul ur w k)).
    { intros k Hk.
      pose proof (wave_sum_flux_jump fi_init ul ur n k Hvl Hvr Hn Hk) as W.
      cbv zeta in W. fold w in W. rewrite <- W.
      unfold dissipation, wave_sum.
      rewrite L0, L1, L2, L3, !fix_inactive_neg by assumption. ring. }
    split; [exact D |].
    rewrite HF. cbn [get x0 x1]. rewrite (D 0%nat), (D 1%nat) by lia.
    pose proof (shear_excess_mass fi_init ul ur n) as S0. fold w in S0. rewrite S0.
    cbn [get]. split; lra.
Qed.

(** X12. The wave decomposition the Roe scheme computes, for valid
    states and a unit normal: summed with the eigenvalues themselves, the
    products lambda_k dw_k r_k give the flux jump F_right - F_left plus the
    excess of the shear wave (its eigenvector is scaled by [cij] where the
    other two are scaled by [rhoij]).  The density entry is exact, and all
    four entries are exact when the tangential velocity jump [dw(1)] is zero
    or [rhoij = cij]. *)
Theorem X12_roe_wave_decomposition (fi_init ul ur : Vec4) (n : Normal) (k : nat) :
  valid_state g ul -> valid_state g ur -> unit_normal n -> (k < 4)%nat ->
  let w := locals g fi_init ul ur n in
  let jump := get (euler_flux g ur n) k - get (euler_flux g ul n) k in
  wave_sum w k = jump + shear_excess ul ur w k /\
  (k = 0%nat -> wave_sum w k = jump) /\
  (get (dw w) 1 = 0 -> wave_sum w k = jump) /\
  (rhoij ul ur = cij w -> wave_sum w k = jump).
Proof.
  intros Hvl Hvr Hn Hk. cbv zeta.
  pose proof (wave_sum_flux_jump fi_init ul ur n k Hvl Hvr Hn Hk) as W. cbv zeta in W.
  split; [exact W |]. split; [| split].
  - intros ->. rewrite W, shear_excess_mass. ring.
  - intros Hd. rewrite W. unfold shear_excess. rewrite Hd. ring.
  - intros Hrc. rewrite W. unfold shear_excess. rewrite Hrc.
    pose proof (cij_pos fi_init ul ur n Hvl Hvr) as Hc.
    replace (cij (locals g fi_init ul ur n) / cij (locals g fi_init ul ur n)) with 1
      by (field; lra).
    ring.
Qed.

Lemma vnij_mean (fi_init ul ur : Vec4) (n : Normal) :
  let w := locals g fi_init ul ur n in
  vnij w = (Rij ul ur * vnj w + vni w) / (Rij ul ur + 1).
Proof.
  cbv zeta. unfold locals, Rij. cbv zeta. cbn [vnij vni vnj]. lits. unfold Rdiv. ring.
Qed.

(** X13. A stationary contact or shear layer through the Roe scheme: for
    two valid states of equal pressure with no velocity along the normal
    (densities and tangential velocities may differ), the dissipation term
    vanishes in all four entries, the density entry of the returned flux is
    zero and its x-momentum entry is the pressure times [n[0]]. *)
Theorem X13_roe_stationary_contact (fi_init ul ur : Vec4) (n : Normal) :
  valid_state g ul -> valid_state g ur ->
  pressure g ul = pressure g ur ->
  normal_velocity ul n = 0 -> normal_velocity ur n = 0 ->
  let w := locals g fi_init ul ur n in
  (forall k : nat, dissipation w k = 0) /\
  get (get_flux g fi_init ul ur n) 0 = 0 /\
  get (get_flux g fi_init ul ur n) 1 = pressure g ul * fst n.
Proof.
  intros Hvl Hvr Hp Hnl Hnr. pose proof g_gt_1 as Hg. cbv zeta.
  set (w := locals g fi_init ul ur n).
  destruct (locals_left g fi_init ul ur n (proj1 Hvl)) as [Hvni _].
  destruct (locals_right g fi_init ul ur n (proj1 Hvr)) as [Hvnj _].
  fold w in Hvni, Hvnj. rewrite Hnl in Hvni. rewrite Hnr in Hvnj.
  pose proof (vnij_mean fi_init ul ur n) as Hm. cbv zeta in Hm. fold w in Hm.
  rewrite Hvni, Hvnj in Hm.
  assert (Hvnij : vnij w = 0) by (rewrite Hm; unfold Rdiv; ring).
  destruct (entropy_fix_forms fi_init ul ur n) as ((F0 & _ & _) & (L0 & L1 & _ & _)).
  fold w in F0, L0, L1.
  assert (E0 : eps0 w = 0).
  { rewrite F0, Hvnij, Hvni, Hvnj. unfold Rmax. repeat destruct (Rle_dec _ _); lra. }
  assert (Z0 : l0 w = 0).
  { rewrite L0, E0, Hvnij. destruct (Rlt_dec (Rabs 0) 0); reflexivity. }
  assert (Z1 : l1 w = 0).
  { rewrite L1, E0, Hvnij. destruct (Rlt_dec (Rabs 0) 0); reflexivity. }
  destruct (locals_forms fi_init ul ur n (proj1 Hvl) (proj1 Hvr))
    as (_ & _ & _ & _ & _ & Qd).
  fold w in Qd.
  assert (D : forall k : nat, dissipation w k = 0).
  { intros k. unfold dissipation. rewrite Z0, Z1, Qd, Hvni, Hvnj, Hp, Rabs_R0.
    cbn [get x0 x1 x2 x3]. unfold Rdiv. ring. }
  split; [exact D |].
  pose proof (roe_get_flux_entries g fi_init ul ur n (proj1 Hvl) (proj1 Hvr)) as HF.
  cbv zeta in HF. rewrite !(dissipation_fi_init g zeros fi_init) in HF. fold w in HF.
  rewrite HF, !D. unfold euler_flux. cbv zeta. rewrite Hnl, Hnr, Hp.
  cbn [get x0 x1]. split; field.
Qed.

Lemma mirror_valid (u : Vec4) (n : Normal) :
  valid_state g u -> unit_normal n -> valid_state g (mirror_state u n).
Proof.
  intros [Hrho Hp] Hn. split; [exact Hrho | rewrite (pressure_mirror g u n Hn); exact Hp].
Qed.

(** X14. No mass flow through a mirror in the Roe scheme: between a valid
    state and its mirror image in the face (unit normal) the averaged normal
    velocity is zero, the two acoustic eigenvalues have the same magnitude
    after the entropy fix, and the density entry of the returned flux is
    zero. *)
Theorem X14_roe_mirror_mass_flux (fi_init u : Vec4) (n : Normal) :
  valid_state g u -> unit_normal n ->
  let w := locals g fi_init u (mirror_state u n) n in
  vnij w = 0 /\ Rabs (l2 w) = Rabs (l3 w) /\
  get (get_flux g fi_init u (mirror_state u n) n) 0 = 0.
Proof.
  intros Hv Hn. pose proof g_gt_1 as Hg. cbv zeta.
  pose proof (mirror_valid u n Hv Hn) as Hv'.
  set (w := locals g fi_init u (mirror_state u n) n).
  destruct (locals_left g fi_init u (mirror_state u n) n (proj1 Hv)) as [Hvni Hci].
  destruct (locals_right g fi_init u (mirror_state u n) n (proj1 Hv')) as [Hvnj Hcj].
  fold w in Hvni, Hci, Hvnj, Hcj.
  rewrite (normal_velocity_mirror u n Hn) in Hvnj.
  rewrite (sound_speed_mirror g u n Hn) in Hcj.
  pose proof (vnij_mean fi_init u (mirror_state u n) n) as Hm. cbv zeta in Hm. fold w in Hm.
  assert (Hk1 : Rij u (mirror_state u n) = 1).
  { unfold Rij. change (get (mirror_state u n) 0) with (get u 0).
    replace (get u 0 / get u 0) with 1 by (field; destruct Hv; lra). apply sqrt_1. }
  assert (Hvnij : vnij w = 0) by (rewrite Hm, Hk1, Hvni, Hvnj; field).
  destruct (entropy_fix_forms fi_init u (mirror_state u n) n)
    as ((_ & F2 & F3) & (_ & _ & L2 & L3)).
  fold w in F2, F3, L2, L3.
  assert (E23 : eps2 w = eps3 w).
  { rewrite F2, F3, Hvnij, Hvni, Hvnj, Hci, Hcj. apply Rmax3_swap; ring. }
  assert (A23 : Rabs (l2 w) = Rabs (l3 w)).
  { rewrite L2, L3. apply fix_abs.
    - rewrite Hvnij, <- Rabs_Ropp. f_equal. ring.
    - exact E23.
    - rewrite F3. apply Rmax_l. }
  split; [exact Hvnij |]. split; [exact A23 |].
  pose proof (roe_get_flux_entries g fi_init u (mirror_state u n) n (proj1 Hv) (proj1 Hv'))
    as HF.
  cbv zeta in HF. rewrite !(dissipation_fi_init g zeros fi_init) in HF. fold w in HF.
  rewrite HF. cbn [get x0].
  destruct (locals_forms fi_init u (mirror_state u n) n (proj1 Hv) (proj1 Hv'))
    as (_ & Q0 & Q1 & Q2 & Q3 & Qd).
  fold w in Q0, Q1, Q2, Q3, Qd.
  unfold dissipation. rewrite A23, Q0, Q1, Q2, Q3, Qd.
  unfold euler_flux. cbv zeta.
  rewrite (normal_velocity_mirror u n Hn), (pressure_mirror g u n Hn).
  change (get (mirror_state u n) 0) with (get u 0).
  cbn [get x0 x1 x2 x3]. unfold Rdiv. ring.
Qed.

End RoeMore.

(** ** The further properties on the sample states *)

Section MoreSamples.

Import RoeFlux RoeAverages.

(** Van Leer: the Mach 1/2 state. *)
Lemma X1_vanleer_consistency_witness :
  valid_state gamma_air u_subsonic /\
  VanLeerFlux.get_flux gamma_air u_subsonic u_subsonic e_y
  = euler_flux gamma_air u_subsonic e_y.
Proof.
  split; [exact u_subsonic_valid |].
  exact (X1_vanleer_consistency gamma_air gamma_air_gt_1 u_subsonic e_y u_subsonic_valid).
Defined.

(** A subsonic state against a supersonic one, turned by one radian. *)
Lemma X2_vanleer_rotation_witness :
  valid_state gamma_air u_subsonic /\ valid_state gamma_air u_supersonic /\
  unit_normal e_y /\
  VanLeerFlux.get_flux gamma_air u_subsonic u_supersonic e_y =
  rotate (- 1)
    (VanLeerFlux.get_flux gamma_air (rotate 1 u_subsonic) (rotate 1 u_supersonic)
                          (rotate_normal 1 e_y)).
Proof.
  split; [exact u_subsonic_valid |]. split; [exact u_supersonic_valid |].
  split; [exact e_y_unit |].
  exact (X2_vanleer_rotation gamma_air gamma_air_gt_1 1 u_subsonic u_supersonic e_y
           u_subsonic_valid u_supersonic_valid e_y_unit).
Defined.

Lemma X3_vanleer_reflection_witness :
  valid_state gamma_air u_subsonic /\ valid_state gamma_air u_supersonic /\
  VanLeerFlux.get_flux gamma_air (reflect u_subsonic) (reflect u_supersonic)
                       (reflect_normal e_y)
  = reflect (VanLeerFlux.get_flux gamma_air u_subsonic u_supersonic e_y).
Proof.
  split; [exact u_subsonic_valid |]. split; [exact u_supersonic_valid |].
  exact (X3_vanleer_reflection gamma_air gamma_air_gt_1 u_subsonic u_supersonic e_y
           u_subsonic_valid u_supersonic_valid).
Defined.

Lemma X4_vanleer_split_mass_flux_witness :
  valid_state gamma_air u_subsonic /\
  0 <= get (VanLeerFlux.fiplus gamma_air u_subsonic e_y) 0 /\
  get (euler_flux gamma_air u_subsonic e_y) 0
  <= get (VanLeerFlux.fiplus gamma_air u_subsonic e_y) 0 /\
  get (VanLeerFlux.fjminus gamma_air u_subsonic e_y) 0 <= 0 /\
  get (VanLeerFlux.fjminus gamma_air u_subsonic e_y) 0
  <= get (euler_flux gamma_air u_subsonic e_y) 0.
Proof.
  split; [exact u_subsonic_valid |].
  exact (X4_vanleer_split_mass_flux gamma_air gamma_air_gt_1 u_subsonic e_y
           u_subsonic_valid).
Defined.

(** The Mach 2 state running into a wall across its path. *)
Lemma X5_vanleer_mirror_flux_witness :
  valid_state gamma_air u_supersonic /\ unit_normal e_y /\
  get (VanLeerFlux.get_flux gamma_air u_supersonic (mirror_state u_supersonic e_y) e_y) 0 = 0 /\
  get (VanLeerFlux.get_flux gamma_air u_supersonic (mirror_state u_supersonic e_y) e_y) 3 = 0.
Proof.
  split; [exact u_supersonic_valid |]. split; [exact e_y_unit |].
  destruct (X5_vanleer_mirror_flux gamma_air gamma_air_gt_1 u_supersonic e_y
              u_supersonic_valid e_y_unit)
    as (H0 & H3 & _).
  split; assumption.
Defined.

(** Roe: the transonic expansion. *)
Lemma X6_roe_sound_speeds_positive_witness :
  valid_state gamma_air u_expand_left /\ valid_state gamma_air u_expand_right /\
  0 < cij (locals gamma_air zeros u_expand_left u_expand_right e_y) /\
  0 < rhoij u_expand_left u_expand_right.
Proof.
  split; [exact u_expand_left_valid |]. split; [exact u_expand_right_valid |].
  destruct (X6_roe_sound_speeds_positive gamma_air gamma_air_gt_1 zeros
              u_expand_left u_expand_right e_y u_expand_left_valid u_expand_right_valid)
    as (_ & _ & _ & Hrho & Hc & _).
  split; assumption.
Defined.

Lemma X7_roe_uniform_flow_witness :
  valid_state gamma_air u_sonic /\
  eps3 (locals gamma_air zeros u_sonic u_sonic e_y) = 0 /\
  l3 (locals gamma_air zeros u_sonic u_sonic e_y)
  = normal_velocity u_sonic e_y - sound_speed gamma_air u_sonic /\
  get (get_flux gamma_air zeros u_sonic u_sonic e_y) 0
  = get (euler_flux gamma_air u_sonic e_y) 0.
Proof.
  split; [exact u_sonic_valid |].
  destruct (X7_roe_uniform_flow gamma_air gamma_air_gt_1 zeros u_sonic e_y u_sonic_valid)
    as (_ & (_ & _ & E3) & (_ & _ & _ & L3) & _ & HF).
  split; [exact E3 |]. split; [exact L3 |].
  rewrite HF. reflexivity.
Defined.

Lemma X8_roe_dissipation_rotation_witness :
  valid_state gamma_air u_expand_left /\ valid_state gamma_air u_expand_right /\
  get (get_flux gamma_air zeros (rotate 1 u_expand_left) (rotate 1 u_expand_right)
                (rotate_normal 1 e_y)) 0
  = get (get_flux gamma_air zeros u_expand_left u_expand_right e_y) 0.
Proof.
  split; [exact u_expand_left_valid |]. split; [exact u_expand_right_valid |].
  exact (proj2 (X8_roe_dissipation_rotation gamma_air gamma_air_gt_1 1 zeros
                  u_expand_left u_expand_right e_y
                  u_expand_left_valid u_expand_right_valid)).
Defined.

Lemma X9_roe_skew_symmetry_witness :
  valid_state gamma_air u_expand_left /\ valid_state gamma_air u_expand_right /\
  get (get_flux gamma_air zeros u_expand_right u_expand_left (nopp e_y)) 0
  = - get (get_flux gamma_air zeros u_expand_left u_expand_right e_y) 0 /\
  get (get_flux gamma_air zeros u_expand_right u_expand_left (nopp e_y)) 1
  = - get (get_flux gamma_air zeros u_expand_left u_expand_right e_y) 1.
Proof.
  split; [exact u_expand_left_valid |]. split; [exact u_expand_right_valid |].
  destruct (X9_roe_skew_symmetry gamma_air gamma_air_gt_1 zeros zeros
              u_expand_left u_expand_right e_y u_expand_left_valid u_expand_right_valid)
    as (_ & _ & _ & H0 & H1).
  split; assumption.
Defined.

(** Two states of unit density and sound speed 1 moving along the normal
    with speeds that differ by 5. *)
Lemma pair_locals (fi_init : Vec4) (a b Ea Eb : R) :
  Ea = 25 / 14 + (0 * 0 + a * a) / 2 -> Eb = 25 / 14 + (0 * 0 + b * b) / 2 ->
  (b - a) * (b - a) = 25 ->
  let w := locals gamma_air fi_init (mkVec4 1 0 a Ea) (mkVec4 1 0 b Eb) e_y in
  vni w = a /\ vnj w = b /\ ci w = 1 /\ cj w = 1 /\ vnij w = (a + b) / 2 /\ cij w = 3 / 2.
Proof.
  intros HEa HEb Hd. cbv zeta.
  assert (Hl : 0 < get (mkVec4 1 0 a Ea) 0) by (cbn [get x0]; lra).
  assert (Hr : 0 < get (mkVec4 1 0 b Eb) 0) by (cbn [get x0]; lra).
  destruct (locals_left gamma_air fi_init _ (mkVec4 1 0 b Eb) e_y Hl) as [-> ->].
  destruct (locals_right gamma_air fi_init (mkVec4 1 0 a Ea) _ e_y Hr) as [-> ->].
  rewrite (sample_sound_speed 0 a Ea HEa), (sample_sound_speed 0 b Eb HEb).
  unfold normal_velocity, e_y. cbn [get x0 x1 x2 x3 fst snd].
  repeat split; try lra.
  - unfold locals. cbv zeta. cbn [vnij get x0 x1 x2 x3 fst snd].
    rewrite sqrt_unit_ratio. lits. field.
  - unfold locals. cbv zeta. cbn [cij get x0 x1 x2 x3 fst snd].
    rewrite sqrt_unit_ratio, gamma_air_eq. lits. subst Ea Eb.
    rewrite <- (sqrt_square (3 / 2)) by lra. f_equal.
    transitivity (1 + (b - a) * (b - a) / 20); [field | rewrite Hd; lra].
Qed.

Lemma Rmax_nonpos (x y : R) : x <= 0 -> y <= 0 -> Rmax 0 (Rmax x y) = 0.
Proof. intros Hx Hy. unfold Rmax. repeat destruct (Rle_dec _ _); lra. Qed.

(** A compression with every wave running along the normal (speeds 7 and
    2), and one with every wave running against it (speeds -2 and -7). *)
Lemma X10_roe_supersonic_upwinding_witness :
  (valid_state gamma_air u_fast /\ valid_state gamma_air u_supersonic /\
   valid_state gamma_air u_expand_left /\ valid_state gamma_air u_fast_back /\
   unit_normal e_y) /\
  (let w := locals gamma_air zeros u_fast u_supersonic e_y in
   eps0 w <= vnij w /\ eps2 w <= vnij w + cij w /\ eps3 w <= vnij w - cij w /\
   get (get_flux gamma_air zeros u_fast u_supersonic e_y) 0
   = get (euler_flux gamma_air u_fast e_y) 0) /\
  (let w := locals gamma_air zeros u_expand_left u_fast_back e_y in
   eps0 w <= - vnij w /\ eps2 w <= - (vnij w + cij w) /\ eps3 w <= - (vnij w - cij w) /\
   get (get_flux gamma_air zeros u_expand_left u_fast_back e_y) 0
   = get (euler_flux gamma_air u_fast_back e_y) 0).
Proof.
  assert (V1 : valid_state gamma_air u_fast) by (apply sample_valid; lra).
  assert (V2 : valid_state gamma_air u_fast_back) by (apply sample_valid; lra).
  split.
  { repeat split; try apply V1; try apply V2; try apply u_supersonic_valid;
      try apply u_expand_left_valid. apply e_y_unit. }
  split.
  - cbv zeta.
    destruct (pair_locals zeros 7 2 (184 / 7) (53 / 14)) as (A1 & A2 & A3 & A4 & A5 & A6);
      [lra | lra | lra |].
    destruct (entropy_fix_forms gamma_air zeros u_fast u_supersonic e_y)
      as ((F0 & F2 & F3) & _).
    unfold u_fast, u_supersonic in *. cbv zeta in *.
    rewrite ?A1, ?A2, ?A3, ?A4, ?A5, ?A6 in F0, F2, F3.
    rewrite Rmax_nonpos in F0, F2, F3 by lra.
    assert (H0 : eps0 (locals gamma_air zeros (mkVec4 1 0 7 (184 / 7))
                               (mkVec4 1 0 2 (53 / 14)) e_y)
                 <= vnij (locals gamma_air zeros (mkVec4 1 0 7 (184 / 7))
                                 (mkVec4 1 0 2 (53 / 14)) e_y))
      by (rewrite F0, A5; lra).
    assert (H2 : eps2 (locals gamma_air zeros (mkVec4 1 0 7 (184 / 7))
                               (mkVec4 1 0 2 (53 / 14)) e_y)
                 <= vnij (locals gamma_air zeros (mkVec4 1 0 7 (184 / 7))
                                 (mkVec4 1 0 2 (53 / 14)) e_y)
                    + cij (locals gamma_air zeros (mkVec4 1 0 7 (184 / 7))
                                  (mkVec4 1 0 2 (53 / 14)) e_y))
      by (rewrite F2, A5, A6; lra).
    assert (H3 : eps3 (locals gamma_air zeros (mkVec4 1 0 7 (184 / 7))
                               (mkVec4 1 0 2 (53 / 14)) e_y)
                 <= vnij (locals gamma_air zeros (mkVec4 1 0 7 (184 / 7))
                                 (mkVec4 1 0 2 (53 / 14)) e_y)
                    - cij (locals gamma_air zeros (mkVec4 1 0 7 (184 / 7))
                                  (mkVec4 1 0 2 (53 / 14)) e_y))
      by (rewrite F3, A5, A6; lra).
    repeat split; try assumption.
    exact (proj1 (proj2 (proj1 (X10_roe_supersonic_upwinding gamma_air gamma_air_gt_1 zeros
                                  (mkVec4 1 0 7 (184 / 7)) (mkVec4 1 0 2 (53 / 14)) e_y
                                  V1 u_supersonic_valid e_y_unit) H0 H2 H3))).
  - cbv zeta.
    destruct (pair_locals zeros (-2) (-7) (53 / 14) (184 / 7))
      as (A1 & A2 & A3 & A4 & A5 & A6); [lra | lra | lra |].
    destruct (entropy_fix_forms gamma_air zeros u_expand_left u_fast_back e_y)
      as ((F0 & F2 & F3) & _).
    unfold u_expand_left, u_fast_back in *. cbv zeta in *.
    rewrite ?A1, ?A2, ?A3, ?A4, ?A5, ?A6 in F0, F2, F3.
    rewrite Rmax_nonpos in F0, F2, F3 by lra.
    assert (H0 : eps0 (locals gamma_air zeros (mkVec4 1 0 (-2) (53 / 14))
                               (mkVec4 1 0 (-7) (184 / 7)) e_y)
                 <= - vnij (locals gamma_air zeros (mkVec4 1 0 (-2) (53 / 14))
                                   (mkVec4 1 0 (-7) (184 / 7)) e_y))
      by (rewrite F0, A5; lra).
    assert (H2 : eps2 (locals gamma_air zeros (mkVec4 1 0 (-2) (53 / 14))
                               (mkVec4 1 0 (-7) (184 / 7)) e_y)
                 <= - (vnij (locals gamma_air zeros (mkVec4 1 0 (-2) (53 / 14))
                                    (mkVec4 1 0 (-7) (184 / 7)) e_y)
                       + cij (locals gamma_air zeros (mkVec4 1 0 (-2) (53 / 14))
                                     (mkVec4 1 0 (-7) (184 / 7)) e_y)))
      by (rewrite F2, A5, A6; lra).
    assert (H3 : eps3 (locals gamma_air zeros (mkVec4 1 0 (-2) (53 / 14))
                               (mkVec4 1 0 (-7) (184 / 7)) e_y)
                 <= - (vnij (locals gamma_air zeros (mkVec4 1 0 (-2) (53 / 14))
                                    (mkVec4 1 0 (-7) (184 / 7)) e_y)
                       - cij (locals gamma_air zeros (mkVec4 1 0 (-2) (53 / 14))
                                     (mkVec4 1 0 (-7) (184 / 7)) e_y)))
      by (rewrite F3, A5, A6; lra).
    repeat split; try assumption.
    exact (proj1 (proj2 (proj2 (X10_roe_supersonic_upwinding gamma_air gamma_air_gt_1 zeros
                                  (mkVec4 1 0 (-2) (53 / 14)) (mkVec4 1 0 (-7) (184 / 7)) e_y
                                  u_expand_left_valid V2 e_y_unit) H0 H2 H3))).
Defined.

(** The light and the dense gas at rest, side by side. *)
Lemma u_dense_valid : valid_state gamma_air u_dense.
Proof.
  unfold valid_state, pressure, u_dense, gamma_air. cbn [get x0 x1 x2 x3 pow].
  split; lra.
Defined.

Lemma rest_pressures : pressure gamma_air u_rest = pressure gamma_air u_dense.
Proof.
  unfold pressure, u_rest, u_dense, gamma_air. cbn [get x0 x1 x2 x3 pow]. lra.
Defined.

Lemma u_rest_still : normal_velocity u_rest e_y = 0.
Proof. unfold normal_velocity, u_rest, e_y. cbn [get x0 x1 x2 x3 fst snd]. lra. Defined.

Lemma u_dense_still : normal_velocity u_dense e_y = 0.
Proof. unfold normal_velocity, u_dense, e_y. cbn [get x0 x1 x2 x3 fst snd]. lra. Defined.

Lemma X11_vanleer_stationary_contact_witness :
  (valid_state gamma_air u_rest /\ valid_state gamma_air u_dense /\
   normal_velocity u_rest e_y = 0 /\ normal_velocity u_dense e_y = 0 /\
   pressure gamma_air u_rest = pressure gamma_air u_dense /\
   get u_rest 0 <> get u_dense 0) /\
  get (VanLeerFlux.get_flux gamma_air u_rest u_dense e_y) 0 <> 0.
Proof.
  assert (Hne : get u_rest 0 <> get u_dense 0).
  { unfold u_rest, u_dense. cbn [get x0]. lra. }
  split.
  { exact (conj u_rest_valid (conj u_dense_valid (conj u_rest_still
             (conj u_dense_still (conj rest_pressures Hne))))). }
  exact (proj2 (X11_vanleer_stationary_contact gamma_air gamma_air_gt_1 u_rest u_dense e_y
                  u_rest_valid u_dense_valid u_rest_still u_dense_still)
               rest_pressures Hne).
Defined.

Lemma X12_roe_wave_decomposition_witness :
  valid_state gamma_air u_expand_left /\ valid_state gamma_air u_expand_right /\
  unit_normal e_y /\ (0 < 4)%nat /\
  wave_sum (locals gamma_air zeros u_expand_left u_expand_right e_y) 0
  = get (euler_flux gamma_air u_expand_right e_y) 0
    - get (euler_flux gamma_air u_expand_left e_y) 0.
Proof.
  split; [exact u_expand_left_valid |]. split; [exact u_expand_right_valid |].
  split; [exact e_y_unit |]. split; [lia |].
  assert (H4 : (0 < 4)%nat) by lia.
  exact (proj1 (proj2 (X12_roe_wave_decomposition gamma_air gamma_air_gt_1 zeros
                         u_expand_left u_expand_right e_y 0
                         u_expand_left_valid u_expand_right_valid e_y_unit H4))
               eq_refl).
Defined.

Lemma X13_roe_stationary_contact_witness :
  (valid_state gamma_air u_rest /\ valid_state gamma_air u_dense /\
   pressure gamma_air u_rest = pressure gamma_air u_dense /\
   normal_velocity u_rest e_y = 0 /\ normal_velocity u_dense e_y = 0) /\
  get (get_flux gamma_air zeros u_rest u_dense e_y) 0 = 0.
Proof.
  split.
  { exact (conj u_rest_valid (conj u_dense_valid (conj rest_pressures
             (conj u_rest_still u_dense_still)))). }
  exact (proj1 (proj2 (X13_roe_stationary_contact gamma_air gamma_air_gt_1 zeros
                         u_rest u_dense e_y u_rest_valid u_dense_valid rest_pressures
                         u_rest_still u_dense_still))).
Defined.

(** The Mach 2 state running into a wall, through the Roe scheme. *)
Lemma X14_roe_mirror_mass_flux_witness :
  valid_state gamma_air u_supersonic /\ unit_normal e_y /\
  get (get_flux gamma_air zeros u_supersonic (mirror_state u_supersonic e_y) e_y) 0 = 0.
Proof.
  split; [exact u_supersonic_valid |]. split; [exact e_y_unit |].
  exact (proj2 (proj2 (X14_roe_mirror_mass_flux gamma_air gamma_air_gt_1 zeros
                         u_supersonic e_y u_supersonic_valid e_y_unit))).
Defined.

End MoreSamples.
